(** * EasyGmsh.RectMesh: structured rectangular mesh builder

    A shallow embedding of [src/EasyGmsh/RectMesh.py].  The Python object
    [self], the gmsh session and the Python heap of selection lists are
    threaded explicitly through a small state-and-exception monad. *)

From Stdlib Require Import ZArith List Lia String Ascii QArith.
From stdpp Require Import base option list gmap strings sorting pretty.

Local Open Scope string_scope.
Local Open Scope list_scope.
Local Open Scope Z_scope.

(** ** Exceptions and the result of a call *)

Inductive exception : Type :=
  | RuntimeError (msg : string)
  | IndexError
  | ValueError
  | AttributeError
  | TypeError.

Inductive result (A : Type) : Type :=
  | Ok (a : A)
  | Raise (e : exception).
Arguments Ok {A} a.
Arguments Raise {A} e.

(** ** numpy: integer arrays of rank two, index normalisation *)

(** An index [i] into an axis of length [n]: Python and numpy accept
    [-n <= i < n], negative indices counting from the end. *)
Definition norm_index (n i : Z) : option Z :=
  if (0 <=? i) && (i <? n) then Some i
  else if (- n <=? i) && (i <? 0) then Some (i + n)
  else None.

Record ndarray : Type := mk_ndarray {
  shape : Z * Z;
  data : gmap (Z * Z) Z
}.

(** [np.empty(shape=[n, m], dtype=int)]: the cells hold whatever was in
    memory; an unwritten cell reads as [0] here. *)
Definition np_empty (n m : Z) : result ndarray :=
  if (n <? 0) || (m <? 0) then Raise ValueError
  else Ok (mk_ndarray (n, m) ∅).

Definition np_empty_like (a : ndarray) : ndarray := mk_ndarray (shape a) ∅.

Definition np_getitem (a : ndarray) (i j : Z) : result Z :=
  match norm_index (fst (shape a)) i, norm_index (snd (shape a)) j with
  | Some i', Some j' => Ok (default 0 (data a !! (i', j')))
  | _, _ => Raise IndexError
  end.

Definition np_setitem (a : ndarray) (i j v : Z) : result ndarray :=
  match norm_index (fst (shape a)) i, norm_index (snd (shape a)) j with
  | Some i', Some j' => Ok (mk_ndarray (shape a) (<[(i', j') := v]> (data a)))
  | _, _ => Raise IndexError
  end.

(** Indexing a Python sequence. *)
Definition py_getitem {A} (l : list A) (i : Z) : result A :=
  match norm_index (Z.of_nat (length l)) i with
  | Some i' =>
      match l !! Z.to_nat i' with
      | Some a => Ok a
      | None => Raise IndexError
      end
  | None => Raise IndexError
  end.

(** [range(n)] *)
Definition range (n : Z) : list Z := seqZ 0 n.

(** ** The geometry kernel *)

(** Modelled from the spec: the external geometry kernel ([gmsh.model.geo]),
    which is not part of the repository.  Every creation call returns the
    next tag of its entity kind (one more than the largest tag so far) and
    records the entity; the tables are kept in creation order.  Coordinates
    and the mesh size are only handed through to the kernel; they are
    rationals here. *)
Record kernel : Type := mk_kernel {
  max_point : Z;
  max_line : Z;
  max_loop : Z;
  max_surface : Z;
  points : list (Z * (Q * Q * Q * Q));
  lines : list (Z * (Z * Z));
  curve_loops : list (Z * list Z);
  plane_surfaces : list (Z * list Z);
  phys_groups : list (Z * list Z * Z * string)
}.

Definition addPoint (px py pz size : Q) (k : kernel) : Z * kernel :=
  let t := max_point k + 1 in
  (t, mk_kernel t (max_line k) (max_loop k) (max_surface k)
        (points k ++ [(t, (px, py, pz, size))]) (lines k)
        (curve_loops k) (plane_surfaces k) (phys_groups k)).

Definition addLine (s e : Z) (k : kernel) : Z * kernel :=
  let t := max_line k + 1 in
  (t, mk_kernel (max_point k) t (max_loop k) (max_surface k)
        (points k) (lines k ++ [(t, (s, e))])
        (curve_loops k) (plane_surfaces k) (phys_groups k)).

Definition addCurveLoop (ls : list Z) (k : kernel) : Z * kernel :=
  let t := max_loop k + 1 in
  (t, mk_kernel (max_point k) (max_line k) t (max_surface k)
        (points k) (lines k)
        (curve_loops k ++ [(t, ls)]) (plane_surfaces k) (phys_groups k)).

Definition addPlaneSurface (loops : list Z) (k : kernel) : Z * kernel :=
  let t := max_surface k + 1 in
  (t, mk_kernel (max_point k) (max_line k) (max_loop k) t
        (points k) (lines k)
        (curve_loops k) (plane_surfaces k ++ [(t, loops)]) (phys_groups k)).

Definition addPhysicalGroup (dim : Z) (tags : list Z) (tag : Z) (name : string)
    (k : kernel) : kernel :=
  mk_kernel (max_point k) (max_line k) (max_loop k) (max_surface k)
    (points k) (lines k) (curve_loops k) (plane_surfaces k)
    (phys_groups k ++ [(dim, tags, tag, name)]).

(** ** The RectMesh object *)

Record group : Type := mk_group {
  material_name : string;
  entities : list Z
}.

(** Attributes that are assigned outside [__init__] do not exist before
    their first assignment: they are [None] until then and reading them
    raises [AttributeError]. *)
Record RectMesh : Type := mk_RectMesh {
  x : list Q;
  y : list Q;
  nx : Z;
  ny : Z;
  _materials : option (list (list Z));
  _material_names : option (list string);
  mesh_size : option Q;
  nodes : option ndarray;
  linex : option ndarray;
  liney : option ndarray;
  curves : option ndarray;
  surfaces : option ndarray;
  n_matrial : option Z;
  physical_groups : option (list group)
}.

(** [RectMesh.__init__] *)
Definition init (lx ly : list Q) (materials : option (list (list Z)))
    (material_names : option (list string)) : RectMesh :=
  mk_RectMesh lx ly (Z.of_nat (length lx) - 1) (Z.of_nat (length ly) - 1)
    materials material_names None None None None None None None None.

(** ** The world: the object, the kernel session, the heap of Python lists
    holding selections, and the files written. *)

Record world : Type := mk_world {
  self : RectMesh;
  gmsh : kernel;
  heap : list (list (list Z));
  files : list (option string * string)
}.

Definition M (A : Type) : Type := world → result A * world.

Definition ret {A} (a : A) : M A := λ w, (Ok a, w).
Definition raise {A} (e : exception) : M A := λ w, (Raise e, w).
Definition bind {A B} (m : M A) (f : A → M B) : M B :=
  λ w, match m w with
       | (Ok a, w') => f a w'
       | (Raise e, w') => (Raise e, w')
       end.
Definition lift {A} (r : result A) : M A := λ w, (r, w).
Definition get_self : M RectMesh := λ w, (Ok (self w), w).
Definition attr {A} (f : RectMesh → option A) : M A :=
  λ w, match f (self w) with
       | Some a => (Ok a, w)
       | None => (Raise AttributeError, w)
       end.
(** Reading an attribute set by [__init__] that must not be [None]. *)
Definition not_none {A} (f : RectMesh → option A) : M A :=
  λ w, match f (self w) with
       | Some a => (Ok a, w)
       | None => (Raise TypeError, w)
       end.
Definition kernel_call {A} (f : kernel → A * kernel) : M A :=
  λ w, let '(a, k) := f (gmsh w) in
       (Ok a, mk_world (self w) k (heap w) (files w)).

Declare Scope py_scope.
Delimit Scope py_scope with py.
Notation "v <- m ;; k" := (bind m (λ v, k))
  (at level 100, m at next level, right associativity) : py_scope.
Notation "m ;;; k" := (bind m (λ _, k))
  (at level 100, right associativity) : py_scope.
Local Open Scope py_scope.

(** [for a in l: body a] *)
Fixpoint for_each {A} (l : list A) (body : A → M unit) : M unit :=
  match l with
  | [] => ret tt
  | a :: l' => body a ;;; for_each l' body
  end.

(** Attribute assignment [self.f = v]. *)
Definition set_nodes (a : ndarray) (s : RectMesh) : RectMesh :=
  mk_RectMesh (x s) (y s) (nx s) (ny s) (_materials s) (_material_names s)
    (mesh_size s) (Some a) (linex s) (liney s) (curves s) (surfaces s)
    (n_matrial s) (physical_groups s).
Definition set_linex (a : ndarray) (s : RectMesh) : RectMesh :=
  mk_RectMesh (x s) (y s) (nx s) (ny s) (_materials s) (_material_names s)
    (mesh_size s) (nodes s) (Some a) (liney s) (curves s) (surfaces s)
    (n_matrial s) (physical_groups s).
Definition set_liney (a : ndarray) (s : RectMesh) : RectMesh :=
  mk_RectMesh (x s) (y s) (nx s) (ny s) (_materials s) (_material_names s)
    (mesh_size s) (nodes s) (linex s) (Some a) (curves s) (surfaces s)
    (n_matrial s) (physical_groups s).
Definition set_curves (a : ndarray) (s : RectMesh) : RectMesh :=
  mk_RectMesh (x s) (y s) (nx s) (ny s) (_materials s) (_material_names s)
    (mesh_size s) (nodes s) (linex s) (liney s) (Some a) (surfaces s)
    (n_matrial s) (physical_groups s).
Definition set_surfaces (a : ndarray) (s : RectMesh) : RectMesh :=
  mk_RectMesh (x s) (y s) (nx s) (ny s) (_materials s) (_material_names s)
    (mesh_size s) (nodes s) (linex s) (liney s) (curves s) (Some a)
    (n_matrial s) (physical_groups s).
Definition set_mesh_size (q : Q) (s : RectMesh) : RectMesh :=
  mk_RectMesh (x s) (y s) (nx s) (ny s) (_materials s) (_material_names s)
    (Some q) (nodes s) (linex s) (liney s) (curves s) (surfaces s)
    (n_matrial s) (physical_groups s).
Definition set_n_matrial (n : Z) (s : RectMesh) : RectMesh :=
  mk_RectMesh (x s) (y s) (nx s) (ny s) (_materials s) (_material_names s)
    (mesh_size s) (nodes s) (linex s) (liney s) (curves s) (surfaces s)
    (Some n) (physical_groups s).
Definition set_material_names (l : list string) (s : RectMesh) : RectMesh :=
  mk_RectMesh (x s) (y s) (nx s) (ny s) (_materials s) (Some l)
    (mesh_size s) (nodes s) (linex s) (liney s) (curves s) (surfaces s)
    (n_matrial s) (physical_groups s).
Definition set_physical_groups (g : list group) (s : RectMesh) : RectMesh :=
  mk_RectMesh (x s) (y s) (nx s) (ny s) (_materials s) (_material_names s)
    (mesh_size s) (nodes s) (linex s) (liney s) (curves s) (surfaces s)
    (n_matrial s) (Some g).

Definition modify_self (f : RectMesh → RectMesh) : M unit :=
  λ w, (Ok tt, mk_world (f (self w)) (gmsh w) (heap w) (files w)).

(** ** TopologyBuilder *)

(** [generate_nodes]; the body of the two loops comes first.  The
    conversion of [x] and [y] from lists to arrays changes nothing here:
    both are sequences indexed by position. *)
Definition generate_nodes_cell (ix iy : Z) : M unit :=
  s <- get_self ;;
  px <- lift (py_getitem (x s) ix) ;;
  py <- lift (py_getitem (y s) iy) ;;
  size <- attr mesh_size ;;
  t <- kernel_call (addPoint px py 0%Q size) ;;
  a <- attr nodes ;;
  a' <- lift (np_setitem a ix iy t) ;;
  modify_self (set_nodes a').

Definition generate_nodes : M unit :=
  s <- get_self ;;
  a <- lift (np_empty (nx s + 1) (ny s + 1)) ;;
  modify_self (set_nodes a) ;;;
  for_each (range (ny s + 1)) (λ iy,
    for_each (range (nx s + 1)) (λ ix, generate_nodes_cell ix iy)).

(** [generate_lines]; the bodies of the loops along x and along y first. *)
Definition generate_lines_x (ix iy : Z) : M unit :=
  nd <- attr nodes ;;
  start <- lift (np_getitem nd ix iy) ;;
  end_ <- lift (np_getitem nd (ix + 1) iy) ;;
  t <- kernel_call (addLine start end_) ;;
  a <- attr linex ;;
  a' <- lift (np_setitem a ix iy t) ;;
  modify_self (set_linex a').

Definition generate_lines_y (ix iy : Z) : M unit :=
  nd <- attr nodes ;;
  start <- lift (np_getitem nd ix iy) ;;
  end_ <- lift (np_getitem nd ix (iy + 1)) ;;
  t <- kernel_call (addLine start end_) ;;
  a <- attr liney ;;
  a' <- lift (np_setitem a ix iy t) ;;
  modify_self (set_liney a').

Definition generate_lines : M unit :=
  s <- get_self ;;
  a <- lift (np_empty (nx s) (ny s + 1)) ;;
  modify_self (set_linex a) ;;;
  for_each (range (ny s + 1)) (λ iy,
    for_each (range (nx s)) (λ ix, generate_lines_x ix iy)) ;;;
  a <- lift (np_empty (nx s + 1) (ny s)) ;;
  modify_self (set_liney a) ;;;
  for_each (range (nx s + 1)) (λ ix,
    for_each (range (ny s)) (λ iy, generate_lines_y ix iy)).

(** [generate_surfaces]; the body of the two loops comes first. *)
Definition generate_surfaces_cell (ix iy : Z) : M unit :=
  ly <- attr liney ;;
  l1 <- lift (np_getitem ly (ix + 1) iy) ;;
  lx <- attr linex ;;
  l2 <- lift (np_getitem lx ix (iy + 1)) ;;
  ly <- attr liney ;;
  l3 <- lift (np_getitem ly ix iy) ;;
  lx <- attr linex ;;
  l4 <- lift (np_getitem lx ix iy) ;;
  let lines := [l1; - l2; - l3; l4] in
  c <- kernel_call (addCurveLoop lines) ;;
  cs <- attr curves ;;
  cs' <- lift (np_setitem cs ix iy c) ;;
  modify_self (set_curves cs') ;;;
  cs <- attr curves ;;
  c' <- lift (np_getitem cs ix iy) ;;
  sf <- kernel_call (addPlaneSurface [c']) ;;
  ss <- attr surfaces ;;
  ss' <- lift (np_setitem ss ix iy sf) ;;
  modify_self (set_surfaces ss').

Definition generate_surfaces : M unit :=
  s <- get_self ;;
  a <- lift (np_empty (nx s) (ny s)) ;;
  modify_self (set_curves a) ;;;
  cs <- attr curves ;;
  modify_self (set_surfaces (np_empty_like cs)) ;;;
  for_each (range (ny s)) (λ iy,
    for_each (range (nx s)) (λ ix, generate_surfaces_cell ix iy)).

(** ** MaterialAssigner *)

(** [M[r, c]] on a matrix given by its rows. *)
Definition matrix_getitem (m : list (list Z)) (r c : Z) : result Z :=
  match norm_index (Z.of_nat (length m)) r with
  | Some r' =>
      match m !! Z.to_nat r' with
      | Some row => py_getitem row c
      | None => Raise IndexError
      end
  | None => Raise IndexError
  end.

(** [l[i].entities.append(e)] on a Python list of groups. *)
Definition append_entity (e : Z) (g : group) : group :=
  mk_group (material_name g) (entities g ++ [e]).

Definition groups_append (l : list group) (i e : Z) : result (list group) :=
  match norm_index (Z.of_nat (length l)) i with
  | Some i' => Ok (alter (append_entity e) (Z.to_nat i') l)
  | None => Raise IndexError
  end.

(** [enumerate(l)] *)
Definition enumerate {A} (l : list A) : list (Z * A) :=
  zip (seqZ 0 (Z.of_nat (length l))) l.

(** [str(i)] for an integer. *)
Definition str (i : Z) : string := pretty i.

(** [generate_physical_groups]; the two [print] calls are left out, the
    list access inside the second one is the same as the one that follows
    it.  The body of the loops over the cells comes first. *)
Definition assign_cell (ix iy : Z) : M unit :=
  mats <- not_none _materials ;;
  s <- get_self ;;
  v <- lift (matrix_getitem mats (ny s - 1 - iy) ix) ;;
  let material_id := v - 1 in
  sf <- attr surfaces ;;
  entity_id <- lift (np_getitem sf ix iy) ;;
  gs <- attr physical_groups ;;
  gs' <- lift (groups_append gs material_id entity_id) ;;
  modify_self (set_physical_groups gs').

Definition generate_physical_groups : M unit :=
  s <- get_self ;;
  match _materials s with
  | None => raise (RuntimeError "Materials not found.")
  | Some mats =>
      modify_self (set_n_matrial (Z.of_nat (length mats))) ;;;
      s <- get_self ;;
      match _material_names s with
      | None =>
          n <- attr n_matrial ;;
          modify_self (set_material_names (map str (range n)))
      | Some _ => ret tt
      end ;;;
      names <- not_none _material_names ;;
      modify_self (set_physical_groups (map (λ nm, mk_group nm []) names)) ;;;
      s <- get_self ;;
      for_each (range (ny s)) (λ iy,
        for_each (range (nx s)) (λ ix, assign_cell ix iy)) ;;;
      gs <- attr physical_groups ;;
      for_each (enumerate gs) (λ '(group_id, g),
        kernel_call (λ k,
          (tt, addPhysicalGroup 2 (entities g) (group_id + 1) (material_name g) k)))
  end.

(** [generate] *)
Definition generate (size : Q) : M unit :=
  modify_self (set_mesh_size size) ;;;
  generate_nodes ;;;
  generate_lines ;;;
  generate_surfaces ;;;
  generate_physical_groups.

(** ** AssemblyExporter *)

(** [sorted(l, key=lambda x: x[0])]: the stable sort by first component. *)
Fixpoint insert_by_key (p : Z * Z) (l : list (Z * Z)) : list (Z * Z) :=
  match l with
  | [] => [p]
  | q :: l' => if fst p <=? fst q then p :: q :: l' else q :: insert_by_key p l'
  end.

Definition sorted_by_key (l : list (Z * Z)) : list (Z * Z) :=
  foldr insert_by_key [] l.

(** The format specifications [d] and [<5d]. *)
Definition format_d (z : Z) : string := pretty z.

Fixpoint spaces (k : nat) : string :=
  match k with
  | O => ""
  | S k' => String " " (spaces k')
  end.

Definition ljust (width : nat) (s : string) : string :=
  s +:+ spaces (width - String.length s).

Definition format_line (p : Z * Z) : string :=
  let '(assembly_id, material_id) := p in
  ljust 5 (format_d assembly_id) +:+ " " +:+ format_d (material_id + 1)
    +:+ String (ascii_of_nat 10) "".

Definition flatten_groups (gs : list group) : list (Z * Z) :=
  '(group_id, g) ← enumerate gs; (λ entity, (entity, group_id)) <$> entities g.

Definition write_file (path : option string) (content : string) : M unit :=
  λ w, (Ok tt, mk_world (self w) (gmsh w) (heap w) (files w ++ [(path, content)])).

(** [export_assembly_materials]; the path is recorded as given, resolving
    it against the working directory belongs to the operating system. *)
Definition export_assembly_materials (path : option string) : M unit :=
  gs <- attr physical_groups ;;
  let assembly_materials := flatten_groups gs in
  let assembly_materials := sorted_by_key assembly_materials in
  write_file path (String.concat "" (map format_line assembly_materials)).

(** ** SelectionAlgebra

    A selection is a Python list of two index arrays.  The list is a heap
    object: the filters assign into it, so the caller's list changes. *)

Definition alloc (l : list (list Z)) : M nat :=
  λ w, (Ok (length (heap w)),
        mk_world (self w) (gmsh w) (heap w ++ [l]) (files w)).

Definition deref (r : nat) : M (list (list Z)) :=
  λ w, match heap w !! r with
       | Some l => (Ok l, w)
       | None => (Raise TypeError, w)
       end.

(** [l[i] = a] on the list at reference [r]. *)
Definition store_item (r : nat) (i : Z) (a : list Z) : M unit :=
  l <- deref r ;;
  match norm_index (Z.of_nat (length l)) i with
  | Some i' =>
      λ w, (Ok tt, mk_world (self w) (gmsh w)
                     (<[r := <[Z.to_nat i' := a]> l]> (heap w)) (files w))
  | None => raise IndexError
  end.

(** [[np.array(range(self.nx)), np.array(range(self.ny))]] *)
Definition default_selected : M nat :=
  s <- get_self ;;
  alloc [range (nx s); range (ny s)].

Definition greater (dim bound : Z) (selected : option nat) : M nat :=
  selected <- match selected with
              | None => default_selected
              | Some r => ret r
              end ;;
  l <- deref selected ;;
  a <- lift (py_getitem l dim) ;;
  store_item selected dim (filter (λ i, bound ≤ i) a) ;;;
  ret selected.

Definition less (dim bound : Z) (selected : option nat) : M nat :=
  selected <- match selected with
              | None => default_selected
              | Some r => ret r
              end ;;
  l <- deref selected ;;
  a <- lift (py_getitem l dim) ;;
  store_item selected dim (filter (λ i, i ≤ bound) a) ;;;
  ret selected.

Definition equal (dim bound : Z) (selected : option nat) : M nat :=
  selected <- match selected with
              | None => default_selected
              | Some r => ret r
              end ;;
  l <- deref selected ;;
  a <- lift (py_getitem l dim) ;;
  store_item selected dim (filter (λ i, i = bound) a) ;;;
  ret selected.

(** [np.unique] and [np.sort] on a rank-one integer array. *)
Definition np_sort (l : list Z) : list Z := merge_sort Z.le l.
Definition np_unique (l : list Z) : list Z := merge_sort Z.le (remove_dups l).

Definition join (a b : nat) : M nat :=
  la <- deref a ;;
  lb <- deref b ;;
  alloc (zip_with (λ ai bi, np_sort (np_unique (ai ++ bi))) la lb).

(** Indexing a rank-two array by two index arrays: the index arrays are
    broadcast against each other and paired positionally. *)
Definition broadcast (xs ys : list Z) : result (list (Z * Z)) :=
  if (length xs =? length ys)%nat then Ok (zip xs ys)
  else match xs, ys with
       | [c], _ => Ok (map (λ j, (c, j)) ys)
       | _, [c] => Ok (map (λ i, (i, c)) xs)
       | _, _ => Raise IndexError
       end.

Fixpoint result_map {A B} (f : A → result B) (l : list A) : result (list B) :=
  match l with
  | [] => Ok []
  | a :: l' =>
      match f a with
      | Ok b => match result_map f l' with
                | Ok bs => Ok (b :: bs)
                | Raise e => Raise e
                end
      | Raise e => Raise e
      end
  end.

Definition np_getitem_arrays (a : ndarray) (xs ys : list Z) : result (list Z) :=
  match broadcast xs ys with
  | Ok ps => result_map (λ '(i, j), np_getitem a i j) ps
  | Raise e => Raise e
  end.

Definition resolve (coord : nat) : M (list Z) :=
  sf <- attr surfaces ;;
  l <- deref coord ;;
  c0 <- lift (py_getitem l 0) ;;
  c1 <- lift (py_getitem l 1) ;;
  lift (np_getitem_arrays sf c0 c1).

Definition empty_kernel : kernel := mk_kernel 0 0 0 0 [] [] [] [] [].

Definition new_world (lx ly : list Q) (materials : option (list (list Z)))
    (material_names : option (list string)) : world :=
  mk_world (init lx ly materials material_names) empty_kernel [] [].

(** ** Definitions used in the statements and proofs *)

(** The cells of a grid in the order of the nested loops over them. *)
Definition row_major (n m : Z) : list (Z * Z) :=
  iy ← range m; ix ← range n; [(ix, iy)].
Definition col_major (n m : Z) : list (Z * Z) :=
  ix ← range n; iy ← range m; [(ix, iy)].

(** The array cells written while the kernel counts up from [base]. *)
Fixpoint fill (cs : list (Z * Z)) (base : Z) (d : gmap (Z * Z) Z) : gmap (Z * Z) Z :=
  match cs with
  | [] => d
  | c :: cs' => fill cs' (base + 1) (<[c := base + 1]> d)
  end.

(** The table entries appended while the kernel counts up from [base]. *)
Fixpoint tagged {A} (base : Z) (l : list A) : list (Z * A) :=
  match l with
  | [] => []
  | a :: l' => (base + 1, a) :: tagged (base + 1) l'
  end.

Definition getd (d : gmap (Z * Z) Z) (c : Z * Z) : Z := default 0 (d !! c).

Definition x_edge (dn : gmap (Z * Z) Z) (c : Z * Z) : Z * Z :=
  (getd dn c, getd dn (c.1 + 1, c.2)).
Definition y_edge (dn : gmap (Z * Z) Z) (c : Z * Z) : Z * Z :=
  (getd dn c, getd dn (c.1, c.2 + 1)).

(** The signed edge handles of the loop around cell [c]. *)
Definition loop_edges (dx dy : gmap (Z * Z) Z) (c : Z * Z) : list Z :=
  [getd dy (c.1 + 1, c.2); - getd dx (c.1, c.2 + 1); - getd dy c; getd dx c].

(** What [__init__] establishes. *)
Definition constructed (s : RectMesh) : Prop :=
  nx s = Z.of_nat (length (x s)) - 1 ∧ ny s = Z.of_nat (length (y s)) - 1.

Definition nodes_arr (n m base : Z) : ndarray :=
  mk_ndarray (n + 1, m + 1) (fill (row_major (n + 1) (m + 1)) base ∅).
Definition linex_arr (n m base : Z) : ndarray :=
  mk_ndarray (n, m + 1) (fill (row_major n (m + 1)) base ∅).
Definition liney_arr (n m base : Z) : ndarray :=
  mk_ndarray (n + 1, m) (fill (col_major (n + 1) m) base ∅).
Definition cells_arr (n m base : Z) : ndarray :=
  mk_ndarray (n, m) (fill (row_major n m) base ∅).

(** Every in-range position of [a] holds one of [tags], and no two
    positions hold the same one. *)
Definition holds_tags (a : ndarray) (n m : Z) (tags : list Z) : Prop :=
  ∀ ix iy, 0 ≤ ix < n → 0 ≤ iy < m → ∃ t, np_getitem a ix iy = Ok t ∧ t ∈ tags.

Definition distinct_tags (a : ndarray) (n m : Z) : Prop :=
  ∀ ix iy ix' iy', 0 ≤ ix < n → 0 ≤ iy < m → 0 ≤ ix' < n → 0 ≤ iy' < m →
    np_getitem a ix iy = np_getitem a ix' iy' → (ix, iy) = (ix', iy').

Definition demo : world := new_world [0%Q; 1%Q; 2%Q] [0%Q; 1%Q; 2%Q]
  (Some [[1; 2]; [2; 1]]) (Some ["F1"; "F2"]).

Definition demo_lines : world :=
  ((modify_self (set_mesh_size 1%Q) ;;; generate_nodes ;;; generate_lines) demo).2.

Definition or_empty (a : option ndarray) : ndarray :=
  default (mk_ndarray (0, 0) ∅) a.

(** The group a cell goes to: the material id read from the flipped row,
    made 0-based and taken as a Python list index into [k] groups. *)
Definition cell_group (mats : list (list Z)) (m : Z) (k : nat) (c : Z * Z) : option nat :=
  match matrix_getitem mats (m - 1 - c.2) c.1 with
  | Ok v => Z.to_nat <$> norm_index (Z.of_nat k) (v - 1)
  | Raise _ => None
  end.

Fixpoint assign (mats : list (list Z)) (m : Z) (ds : gmap (Z * Z) Z)
    (cs : list (Z * Z)) (gs : list group) : option (list group) :=
  match cs with
  | [] => Some gs
  | c :: cs' =>
      match cell_group mats m (length gs) c with
      | Some g => assign mats m ds cs' (alter (append_entity (getd ds c)) g gs)
      | None => None
      end
  end.

(** The names in force: those supplied, else [str(i)] for [i] in
    [range(len(materials))]. *)
Definition effective_names (s : RectMesh) (mats : list (list Z)) : list string :=
  match _material_names s with
  | Some l => l
  | None => map str (range (Z.of_nat (length mats)))
  end.

Definition registration (gs : list group) : list (Z * list Z * Z * string) :=
  (λ '(group_id, g), (2, entities g, group_id + 1, material_name g)) <$> enumerate gs.

Definition register (gs : list group) (k : kernel) : kernel :=
  mk_kernel (max_point k) (max_line k) (max_loop k) (max_surface k)
    (points k) (lines k) (curve_loops k) (plane_surfaces k)
    (phys_groups k ++ registration gs).

Definition with_names (s : RectMesh) (mats : list (list Z)) : RectMesh :=
  set_material_names (effective_names s mats)
    (set_n_matrial (Z.of_nat (length mats)) s).

Global Instance exception_eq_dec : EqDecision exception.
Proof. solve_decision. Defined.
Global Instance result_eq_dec {A} `{EqDecision A} : EqDecision (result A).
Proof. solve_decision. Defined.

(** The 0-based material id of a cell: [M[ny-1-iy, ix] - 1]. *)
Definition material_id (mats : list (list Z)) (m : Z) (c : Z * Z) : result Z :=
  match matrix_getitem mats (m - 1 - c.2) c.1 with
  | Ok v => Ok (v - 1)
  | Raise e => Raise e
  end.

Definition demo_built : world :=
  ((modify_self (set_mesh_size 1%Q) ;;; generate_nodes ;;; generate_lines ;;;
    generate_surfaces) demo).2.

Definition demo_default : world :=
  new_world [0%Q; 1%Q; 2%Q] [0%Q; 1%Q; 2%Q] (Some [[1; 2]; [2; 1]]) None.

Definition demo_default_built : world :=
  ((modify_self (set_mesh_size 1%Q) ;;; generate_nodes ;;; generate_lines ;;;
    generate_surfaces) demo_default).2.

Definition strip : world :=
  new_world [0%Q; 1%Q; 2%Q] [0%Q; 1%Q] (Some [[1; 2]]) None.
Definition strip_named : world :=
  new_world [0%Q; 1%Q; 2%Q] [0%Q; 1%Q] (Some [[1; 2]]) (Some ["F1"; "F2"]).

(** The selection after filtering axis [dim] (0 or 1) of [[sx; sy]]. *)
Definition filtered (P : Z → Prop) `{!∀ i, Decision (P i)} (dim : Z)
    (sx sy : list Z) : list (list Z) :=
  if decide (dim = 0) then [filter P sx; sy] else [sx; filter P sy].

Definition with_heap (w : world) (hp : list (list (list Z))) : world :=
  mk_world (self w) (gmsh w) hp (files w).

(** What an in-place update of the list at [r] leaves behind: the list
    object at [r] holds [sel'], nothing is allocated, every other list,
    the mesh, the kernel and the files are as before. *)
Definition updated_in_place (w w' : world) (r : nat) (sel' : list (list Z)) : Prop :=
  heap w' !! r = Some sel' ∧ length (heap w') = length (heap w) ∧
  (∀ r', r' ≠ r → heap w' !! r' = heap w !! r') ∧
  self w' = self w ∧ gmsh w' = gmsh w ∧ files w' = files w.

Definition demo_selection : world :=
  (alloc [[0; 1; 2]; [0; 1]] demo).2.

Definition demo_groups : world := (generate 1%Q demo).2.

Definition demo_column : world := (alloc [[1]; [0; 1]] demo_groups).2.

(** The selection a filter starts from: the caller's list, or the full
    index ranges when none is given. *)
Definition selection_of (w : world) (selected : option nat) : option (list (list Z)) :=
  match selected with
  | Some r => heap w !! r
  | None => Some [range (nx (self w)); range (ny (self w))]
  end.

(** [join(greater(d, b, s1), less(d, b - 1, s2))], read back. *)
Definition partition_call (d b : Z) (s1 s2 : option nat) : M (list (list Z)) :=
  a <- greater d b s1 ;;
  b' <- less d (b - 1) s2 ;;
  c <- join a b' ;;
  deref c.

Definition demo_shared : world := (alloc [range 2; range 2] demo).2.

Definition key_le (p q : Z * Z) : Prop := p.1 ≤ q.1.

(** ** Definitions for the further properties *)

(** The point created for grid position [c]. *)
Definition node_point (s : RectMesh) (sz : Q) (c : Z * Z) : Q * Q * Q * Q :=
  (default 0%Q (x s !! Z.to_nat c.1), default 0%Q (y s !! Z.to_nat c.2), 0%Q, sz).

(** The mesh and the kernel after [generate_nodes], [generate_lines] and
    [generate_surfaces], in closed form. *)
Definition built_mesh (s : RectMesh) (k : kernel) : RectMesh :=
  set_surfaces (cells_arr (nx s) (ny s) (max_surface k))
    (set_curves (cells_arr (nx s) (ny s) (max_loop k))
       (set_liney
          (liney_arr (nx s) (ny s)
             (max_line k + Z.of_nat (length (row_major (nx s) (ny s + 1)))))
          (set_linex (linex_arr (nx s) (ny s) (max_line k))
             (set_nodes (nodes_arr (nx s) (ny s) (max_point k)) s)))).

Definition built_kernel (s : RectMesh) (sz : Q) (k : kernel) : kernel :=
  let n := nx s in
  let m := ny s in
  let ps := row_major (n + 1) (m + 1) in
  let xs := row_major n (m + 1) in
  let ys := col_major (n + 1) m in
  let cs := row_major n m in
  let dn := fill ps (max_point k) ∅ in
  let dx := fill xs (max_line k) ∅ in
  let dy := fill ys (max_line k + Z.of_nat (length xs)) ∅ in
  mk_kernel (max_point k + Z.of_nat (length ps))
    (max_line k + Z.of_nat (length xs) + Z.of_nat (length ys))
    (max_loop k + Z.of_nat (length cs)) (max_surface k + Z.of_nat (length cs))
    (points k ++ tagged (max_point k) (node_point s sz <$> ps))
    (lines k ++ tagged (max_line k) (x_edge dn <$> xs)
             ++ tagged (max_line k + Z.of_nat (length xs)) (y_edge dn <$> ys))
    (curve_loops k ++ tagged (max_loop k) (loop_edges dx dy <$> cs))
    (plane_surfaces k ++
       tagged (max_surface k) ((λ t, [t]) <$> (tagged (max_loop k) cs).*1))
    (phys_groups k).

(** A signed edge handle [e] runs from node [a] to node [b]: the line
    [|e|] goes from [a] to [b] when [e] is positive, from [b] to [a] when
    it is negative. *)
Definition runs (tbl : list (Z * (Z * Z))) (e a b : Z) : Prop :=
  (0 < e ∧ (e, (a, b)) ∈ tbl) ∨ (e < 0 ∧ (- e, (b, a)) ∈ tbl).

Definition demo_nodes : world :=
  ((modify_self (set_mesh_size 1%Q) ;;; generate_nodes) demo).2.

(** A grid with no x coordinate, and one with no y coordinate. *)
Definition no_columns : world := new_world [] [0%Q; 1%Q] None None.
Definition no_rows : world := new_world [0%Q; 1%Q] [] None None.

Definition demo_bare : world :=
  new_world [0%Q; 1%Q; 2%Q] [0%Q; 1%Q; 2%Q] None None.

(** The query of the module's script: pin axis 0 to [c], keep the indices
    [lo .. hi] on axis 1, and resolve. *)
Definition column_query (c lo hi : Z) : M (list Z) :=
  s <- equal 0 c None ;;
  s <- greater 1 lo (Some s) ;;
  s <- less 1 hi (Some s) ;;
  resolve s.

(** The same with the axes exchanged. *)
Definition row_query (c lo hi : Z) : M (list Z) :=
  s <- equal 1 c None ;;
  s <- greater 0 lo (Some s) ;;
  s <- less 0 hi (Some s) ;;
  resolve s.

Definition demo_two_selections : world :=
  ((alloc [[2; 0]; [1]] ;;; alloc [[0; 1]; [1; 0]]) demo).2.

(** Everything [generate_physical_groups] has no business with: the grid,
    the arrays of tags, the kernel's entities and counters, the heap and the
    files. *)
Definition geometry (w : world) :=
  (x (self w), y (self w), nx (self w), ny (self w), mesh_size (self w),
   (nodes (self w), linex (self w), liney (self w), curves (self w), surfaces (self w)),
   (max_point (gmsh w), max_line (gmsh w), max_loop (gmsh w), max_surface (gmsh w)),
   (points (gmsh w), lines (gmsh w), curve_loops (gmsh w), plane_surfaces (gmsh w)),
   heap w, files w).

(** A 2x2 mesh whose matrix has a [0] in the bottom-left cell. *)
Definition demo_zero : world :=
  new_world [0%Q; 1%Q; 2%Q] [0%Q; 1%Q; 2%Q] (Some [[1; 2]; [0; 1]]) (Some ["F1"; "F2"]).
Definition demo_zero_built : world :=
  ((modify_self (set_mesh_size 1%Q) ;;; generate_nodes ;;; generate_lines ;;;
    generate_surfaces) demo_zero).2.

(** A 2x2 mesh whose matrix has one row only. *)
Definition demo_short : world :=
  new_world [0%Q; 1%Q; 2%Q] [0%Q; 1%Q; 2%Q] (Some [[1; 2]]) (Some ["F1"; "F2"]).
Definition demo_short_built : world :=
  ((modify_self (set_mesh_size 1%Q) ;;; generate_nodes ;;; generate_lines ;;;
    generate_surfaces) demo_short).2.

(** The (surface, group) pair of cell [c], for [k] groups. *)
Definition cell_pair (mats : list (list Z)) (m : Z) (ds : gmap (Z * Z) Z) (k : nat)
    (c : Z * Z) : Z * Z :=
  (getd ds c,
   match cell_group mats m k c with
   | Some g => Z.of_nat g
   | None => 0
   end).

(** * Verification *)

(** Tactics that run the monadic code of a loop body or of a filter. *)
Ltac run_cell :=
  unfold bind, get_self, lift, attr, not_none, kernel_call, modify_self; cbn.

Ltac filter_some w :=
  intros Hr [-> | ->]; destruct w as [s k hp f]; cbn [heap] in Hr;
  unfold store_item, bind, ret, raise, deref, lift, with_heap, filtered; cbn;
  rewrite Hr; cbn; rewrite ?Hr; done.

(** ** The monad and the loops *)

Lemma bind_ok {A B} (m : M A) (f : A → M B) w a w' :
  m w = (Ok a, w') → bind m f w = f a w'.
Proof. unfold bind. intros ->. reflexivity. Qed.

Lemma bind_raise {A B} (m : M A) (f : A → M B) w e w' :
  m w = (Raise e, w') → bind m f w = (Raise e, w').
Proof. unfold bind. intros ->. reflexivity. Qed.

Lemma for_each_app {A} (l1 l2 : list A) body w :
  for_each (l1 ++ l2) body w = (for_each l1 body ;;; for_each l2 body) w.
Proof.
  revert w. induction l1 as [|a l1 IH]; intros w; simpl.
  - reflexivity.
  - unfold bind in *. destruct (body a w) as [[[]|e] w1]; [apply IH|].
    reflexivity.
Qed.

Lemma for_each_row_major n m (body : Z → Z → M unit) w :
  for_each (range m) (λ iy, for_each (range n) (λ ix, body ix iy)) w
  = for_each (row_major n m) (λ c, body c.1 c.2) w.
Proof.
  unfold row_major. revert w.
  induction (range m) as [|iy l IH]; intros w; [done|].
  rewrite bind_cons, for_each_app. simpl. unfold bind.
  assert (∀ l' w, for_each l' (λ ix, body ix iy) w
            = for_each (l' ≫= λ ix, [(ix, iy)]) (λ c, body c.1 c.2) w) as ->.
  { clear. induction l' as [|ix l' IH]; intros w; [done|].
    simpl. unfold bind. destruct (body ix iy w) as [[[]|e] w1]; [apply IH|done]. }
  destruct (for_each _ _ w) as [[[]|e] w1]; [apply IH|done].
Qed.

Lemma for_each_col_major n m (body : Z → Z → M unit) w :
  for_each (range n) (λ ix, for_each (range m) (λ iy, body ix iy)) w
  = for_each (col_major n m) (λ c, body c.1 c.2) w.
Proof.
  unfold col_major. revert w.
  induction (range n) as [|ix l IH]; intros w; [done|].
  rewrite bind_cons, for_each_app. simpl. unfold bind.
  assert (∀ l' w, for_each l' (λ iy, body ix iy) w
            = for_each (l' ≫= λ iy, [(ix, iy)]) (λ c, body c.1 c.2) w) as ->.
  { clear. induction l' as [|iy l' IH]; intros w; [done|].
    simpl. unfold bind. destruct (body ix iy w) as [[[]|e] w1]; [apply IH|done]. }
  destruct (for_each _ _ w) as [[[]|e] w1]; [apply IH|done].
Qed.

Lemma elem_of_row_major n m ix iy :
  (ix, iy) ∈ row_major n m ↔ 0 ≤ ix < n ∧ 0 ≤ iy < m.
Proof.
  unfold row_major, range. rewrite list_elem_of_bind. split.
  - intros (b & Hin & Hb). apply list_elem_of_bind in Hin as (a & Hin & Ha).
    apply list_elem_of_singleton in Hin as [= -> ->].
    apply elem_of_seqZ in Ha, Hb. lia.
  - intros [? ?]. exists iy. split; [|apply elem_of_seqZ; lia].
    apply list_elem_of_bind. exists ix. split; [by left|apply elem_of_seqZ; lia].
Qed.

Lemma elem_of_col_major n m ix iy :
  (ix, iy) ∈ col_major n m ↔ 0 ≤ ix < n ∧ 0 ≤ iy < m.
Proof.
  unfold col_major, range. rewrite list_elem_of_bind. split.
  - intros (a & Hin & Ha). apply list_elem_of_bind in Hin as (b & Hin & Hb).
    apply list_elem_of_singleton in Hin as [= -> ->].
    apply elem_of_seqZ in Ha, Hb. lia.
  - intros [? ?]. exists ix. split; [|apply elem_of_seqZ; lia].
    apply list_elem_of_bind. exists iy. split; [by left|apply elem_of_seqZ; lia].
Qed.

Lemma NoDup_row_major n m : NoDup (row_major n m).
Proof.
  unfold row_major. apply NoDup_bind; [| |apply NoDup_seqZ].
  - intros b1 b2 c Hb1 Hb2 H1 H2.
    apply list_elem_of_bind in H1 as (? & H1 & _), H2 as (? & H2 & _).
    apply list_elem_of_singleton in H1, H2. congruence.
  - intros b _. apply NoDup_bind; [| |apply NoDup_seqZ].
    + intros a1 a2 c _ _ H1 H2. apply list_elem_of_singleton in H1, H2. congruence.
    + intros; apply NoDup_singleton.
Qed.

Lemma NoDup_col_major n m : NoDup (col_major n m).
Proof.
  unfold col_major. apply NoDup_bind; [| |apply NoDup_seqZ].
  - intros b1 b2 c Hb1 Hb2 H1 H2.
    apply list_elem_of_bind in H1 as (? & H1 & _), H2 as (? & H2 & _).
    apply list_elem_of_singleton in H1, H2. congruence.
  - intros b _. apply NoDup_bind; [| |apply NoDup_seqZ].
    + intros a1 a2 c _ _ H1 H2. apply list_elem_of_singleton in H1, H2. congruence.
    + intros; apply NoDup_singleton.
Qed.

Lemma length_bind_const {A B} (f : A → list B) (l : list A) k :
  (∀ a, length (f a) = k) → length (l ≫= f) = (length l * k)%nat.
Proof.
  intros Hf. induction l as [|a l IH]; [done|].
  rewrite bind_cons, length_app, IH, Hf. simpl. lia.
Qed.

Lemma length_row_major n m :
  length (row_major n m) = (Z.to_nat m * Z.to_nat n)%nat.
Proof.
  unfold row_major, range.
  rewrite (length_bind_const _ _ (Z.to_nat n)), length_seqZ; [done|].
  intros b. rewrite (length_bind_const _ _ 1%nat), length_seqZ; [lia|done].
Qed.

Lemma length_col_major n m :
  length (col_major n m) = (Z.to_nat n * Z.to_nat m)%nat.
Proof.
  unfold col_major, range.
  rewrite (length_bind_const _ _ (Z.to_nat m)), length_seqZ; [done|].
  intros b. rewrite (length_bind_const _ _ 1%nat), length_seqZ; [lia|done].
Qed.

(** ** Tags handed out by the kernel *)

Lemma fill_notin cs : ∀ base d c, c ∉ cs → fill cs base d !! c = d !! c.
Proof.
  induction cs as [|c' cs IH]; intros base d c Hc; simpl; [done|].
  apply not_elem_of_cons in Hc as [Hne Hc].
  rewrite IH by done. by rewrite lookup_insert_ne.
Qed.

Lemma fill_lookup cs : ∀ base d (i : nat) c,
  NoDup cs → cs !! i = Some c → fill cs base d !! c = Some (base + 1 + Z.of_nat i).
Proof.
  induction cs as [|c' cs IH]; intros base d i c Hnd Hi; [done|].
  apply NoDup_cons in Hnd as [Hnotin Hnd]. destruct i as [|i]; simpl in *.
  - injection Hi as ->. rewrite fill_notin by done.
    rewrite lookup_insert_eq. f_equal. lia.
  - rewrite (IH _ _ i) by done. f_equal. lia.
Qed.

Lemma fill_elem cs base d c :
  NoDup cs → c ∈ cs →
  ∃ i : nat, cs !! i = Some c ∧ fill cs base d !! c = Some (base + 1 + Z.of_nat i).
Proof.
  intros Hnd (i & Hi)%list_elem_of_lookup. exists i. split; [done|].
  by apply fill_lookup.
Qed.

Lemma tagged_lookup {A} (l : list A) : ∀ base (i : nat) t a,
  tagged base l !! i = Some (t, a) ↔ t = base + 1 + Z.of_nat i ∧ l !! i = Some a.
Proof.
  induction l as [|a' l IH]; intros base i t a; [by split; [|intros []]|].
  destruct i as [|i]; simpl.
  - split; [intros [= <- <-]; split; [lia|done] | intros [-> [= ->]]; f_equal; f_equal; lia].
  - rewrite IH. split; intros [-> ?]; split; try done; lia.
Qed.

Lemma tagged_fst {A} (l : list A) base :
  (tagged base l).*1 = seqZ (base + 1) (Z.of_nat (length l)).
Proof.
  revert base. induction l as [|a l IH]; intros base; [done|].
  cbn [tagged fmap list_fmap length fst]. rewrite seqZ_cons by lia.
  rewrite Nat2Z.inj_succ, Z.pred_succ. f_equal. apply IH.
Qed.

Lemma tagged_length {A} (l : list A) base : length (tagged base l) = length l.
Proof. revert base. induction l; intros; simpl; auto. Qed.

Lemma tagged_NoDup {A} (l : list A) base : NoDup (tagged base l).*1.
Proof. rewrite tagged_fst. apply NoDup_seqZ. Qed.

Lemma tagged_app {A} (l1 l2 : list A) base :
  tagged base (l1 ++ l2) = tagged base l1 ++ tagged (base + Z.of_nat (length l1)) l2.
Proof.
  revert base. induction l1 as [|a l1 IH]; intros base; simpl.
  - by rewrite Z.add_0_r.
  - rewrite IH. do 3 f_equal. lia.
Qed.

(** ** Index and bounds facts *)

Lemma norm_index_in n i : 0 ≤ i < n → norm_index n i = Some i.
Proof.
  intros. unfold norm_index.
  destruct (Z.leb_spec 0 i), (Z.ltb_spec i n); simpl; try lia. done.
Qed.

Lemma np_setitem_in n m d i j v :
  0 ≤ i < n → 0 ≤ j < m →
  np_setitem (mk_ndarray (n, m) d) i j v = Ok (mk_ndarray (n, m) (<[(i, j) := v]> d)).
Proof. intros. unfold np_setitem. simpl. by rewrite !norm_index_in. Qed.

Lemma np_getitem_in n m d i j :
  0 ≤ i < n → 0 ≤ j < m →
  np_getitem (mk_ndarray (n, m) d) i j = Ok (default 0 (d !! (i, j))).
Proof. intros. unfold np_getitem. simpl. by rewrite !norm_index_in. Qed.

Lemma py_getitem_in {A} (l : list A) i :
  0 ≤ i < Z.of_nat (length l) → ∃ a, l !! Z.to_nat i = Some a ∧ py_getitem l i = Ok a.
Proof.
  intros. unfold py_getitem. rewrite norm_index_in by done.
  destruct (l !! Z.to_nat i) as [a|] eqn:E; [eauto|].
  apply lookup_ge_None in E. lia.
Qed.

(** ** The loops of the topology builder, in closed form *)

Lemma generate_nodes_cell_ok s k h f n m d sz ix iy px py :
  nodes s = Some (mk_ndarray (n, m) d) → mesh_size s = Some sz →
  0 ≤ ix < n → 0 ≤ iy < m →
  py_getitem (x s) ix = Ok px → py_getitem (y s) iy = Ok py →
  generate_nodes_cell ix iy (mk_world s k h f)
  = (Ok tt, mk_world (set_nodes (mk_ndarray (n, m) (<[(ix, iy) := max_point k + 1]> d)) s)
              (addPoint px py 0%Q sz k).2 h f).
Proof.
  intros Hn Hsz Hx Hy Epx Epy. unfold generate_nodes_cell. run_cell.
  rewrite Epx; cbn. rewrite Epy; cbn. rewrite Hsz; cbn. rewrite Hn; cbn.
  rewrite np_setitem_in by done. done.
Qed.

Lemma generate_nodes_loop cs : ∀ s k h f n m d sz,
  nodes s = Some (mk_ndarray (n, m) d) → mesh_size s = Some sz →
  Forall (λ c, (0 ≤ c.1 < n ∧ 0 ≤ c.2 < m) ∧
               c.1 < Z.of_nat (length (x s)) ∧ c.2 < Z.of_nat (length (y s))) cs →
  ∃ pays, length pays = length cs ∧
    for_each cs (λ c, generate_nodes_cell c.1 c.2) (mk_world s k h f)
    = (Ok tt,
       mk_world (set_nodes (mk_ndarray (n, m) (fill cs (max_point k) d)) s)
         (mk_kernel (max_point k + Z.of_nat (length cs)) (max_line k) (max_loop k)
            (max_surface k) (points k ++ tagged (max_point k) pays) (lines k)
            (curve_loops k) (plane_surfaces k) (phys_groups k)) h f).
Proof.
  induction cs as [|[ix iy] cs IH]; intros s k h f n m d sz Hn Hsz Hcs.
  - exists []. split; [done|]. destruct s, k; simpl in *. subst.
    unfold ret. rewrite Z.add_0_r, app_nil_r. done.
  - apply Forall_cons in Hcs as [((Hx & Hy) & Hlx & Hly) Hcs]. simpl in Hx, Hy, Hlx, Hly.
    destruct (py_getitem_in (x s) ix) as (px & _ & Epx); [lia|].
    destruct (py_getitem_in (y s) iy) as (py & _ & Epy); [lia|].
    destruct (IH (set_nodes (mk_ndarray (n, m) (<[(ix, iy) := max_point k + 1]> d)) s)
                (addPoint px py 0%Q sz k).2 h f n m
                (<[(ix, iy) := max_point k + 1]> d) sz)
      as (pays & Hlen & Hrun); [done|done|exact Hcs|].
    exists ((px, py, 0%Q, sz) :: pays). split; [simpl; lia|].
    cbn [for_each].
    erewrite bind_ok by (eapply generate_nodes_cell_ok; eauto).
    cbn beta. etrans; [exact Hrun|]. cbn. rewrite <- app_assoc. cbn.
    do 3 f_equal. lia.
Qed.

Lemma generate_lines_x_ok s k h f n m d nn nm dn ix iy :
  nodes s = Some (mk_ndarray (nn, nm) dn) → linex s = Some (mk_ndarray (n, m) d) →
  0 ≤ ix < n → 0 ≤ iy < m → ix + 1 < nn → iy < nm →
  generate_lines_x ix iy (mk_world s k h f)
  = (Ok tt, mk_world (set_linex (mk_ndarray (n, m) (<[(ix, iy) := max_line k + 1]> d)) s)
              (addLine (getd dn (ix, iy)) (getd dn (ix + 1, iy)) k).2 h f).
Proof.
  intros Hn Hl Hx Hy Hx' Hy'. unfold generate_lines_x. run_cell.
  rewrite Hn; cbn. rewrite !np_getitem_in by lia. cbn. rewrite Hl; cbn.
  rewrite np_setitem_in by done. done.
Qed.

Lemma generate_lines_y_ok s k h f n m d nn nm dn ix iy :
  nodes s = Some (mk_ndarray (nn, nm) dn) → liney s = Some (mk_ndarray (n, m) d) →
  0 ≤ ix < n → 0 ≤ iy < m → ix < nn → iy + 1 < nm →
  generate_lines_y ix iy (mk_world s k h f)
  = (Ok tt, mk_world (set_liney (mk_ndarray (n, m) (<[(ix, iy) := max_line k + 1]> d)) s)
              (addLine (getd dn (ix, iy)) (getd dn (ix, iy + 1)) k).2 h f).
Proof.
  intros Hn Hl Hx Hy Hx' Hy'. unfold generate_lines_y. run_cell.
  rewrite Hn; cbn. rewrite !np_getitem_in by lia. cbn. rewrite Hl; cbn.
  rewrite np_setitem_in by done. done.
Qed.

Lemma generate_lines_x_loop cs : ∀ s k h f n m d nn nm dn,
  nodes s = Some (mk_ndarray (nn, nm) dn) → linex s = Some (mk_ndarray (n, m) d) →
  Forall (λ c, (0 ≤ c.1 < n ∧ 0 ≤ c.2 < m) ∧ c.1 + 1 < nn ∧ c.2 < nm) cs →
  for_each cs (λ c, generate_lines_x c.1 c.2) (mk_world s k h f)
  = (Ok tt,
     mk_world (set_linex (mk_ndarray (n, m) (fill cs (max_line k) d)) s)
       (mk_kernel (max_point k) (max_line k + Z.of_nat (length cs)) (max_loop k)
          (max_surface k) (points k)
          (lines k ++ tagged (max_line k) (x_edge dn <$> cs))
          (curve_loops k) (plane_surfaces k) (phys_groups k)) h f).
Proof.
  induction cs as [|[ix iy] cs IH]; intros s k h f n m d nn nm dn Hn Hl Hcs.
  - destruct s, k; simpl in *. subst.
    unfold ret. rewrite Z.add_0_r, app_nil_r. done.
  - apply Forall_cons in Hcs as [((Hx & Hy) & Hx' & Hy') Hcs]. simpl in Hx, Hy, Hx', Hy'.
    cbn [for_each].
    erewrite bind_ok by (eapply generate_lines_x_ok; eauto).
    cbn beta. etrans; [eapply (IH _ _ h f n m _ nn nm dn); [done|done|exact Hcs]|].
    cbn. rewrite <- app_assoc. cbn. do 3 f_equal. lia.
Qed.

Lemma generate_lines_y_loop cs : ∀ s k h f n m d nn nm dn,
  nodes s = Some (mk_ndarray (nn, nm) dn) → liney s = Some (mk_ndarray (n, m) d) →
  Forall (λ c, (0 ≤ c.1 < n ∧ 0 ≤ c.2 < m) ∧ c.1 < nn ∧ c.2 + 1 < nm) cs →
  for_each cs (λ c, generate_lines_y c.1 c.2) (mk_world s k h f)
  = (Ok tt,
     mk_world (set_liney (mk_ndarray (n, m) (fill cs (max_line k) d)) s)
       (mk_kernel (max_point k) (max_line k + Z.of_nat (length cs)) (max_loop k)
          (max_surface k) (points k)
          (lines k ++ tagged (max_line k) (y_edge dn <$> cs))
          (curve_loops k) (plane_surfaces k) (phys_groups k)) h f).
Proof.
  induction cs as [|[ix iy] cs IH]; intros s k h f n m d nn nm dn Hn Hl Hcs.
  - destruct s, k; simpl in *. subst.
    unfold ret. rewrite Z.add_0_r, app_nil_r. done.
  - apply Forall_cons in Hcs as [((Hx & Hy) & Hx' & Hy') Hcs]. simpl in Hx, Hy, Hx', Hy'.
    cbn [for_each].
    erewrite bind_ok by (eapply generate_lines_y_ok; eauto).
    cbn beta. etrans; [eapply (IH _ _ h f n m _ nn nm dn); [done|done|exact Hcs]|].
    cbn. rewrite <- app_assoc. cbn. do 3 f_equal. lia.
Qed.

Lemma generate_surfaces_cell_ok s k h f n m dc ds xn xm dx yn ym dy ix iy :
  linex s = Some (mk_ndarray (xn, xm) dx) → liney s = Some (mk_ndarray (yn, ym) dy) →
  curves s = Some (mk_ndarray (n, m) dc) → surfaces s = Some (mk_ndarray (n, m) ds) →
  0 ≤ ix < n → 0 ≤ iy < m → ix < xn → iy + 1 < xm → ix + 1 < yn → iy < ym →
  generate_surfaces_cell ix iy (mk_world s k h f)
  = (Ok tt,
     mk_world
       (set_surfaces (mk_ndarray (n, m) (<[(ix, iy) := max_surface k + 1]> ds))
          (set_curves (mk_ndarray (n, m) (<[(ix, iy) := max_loop k + 1]> dc)) s))
       (addPlaneSurface [max_loop k + 1]
          (addCurveLoop (loop_edges dx dy (ix, iy)) k).2).2 h f).
Proof.
  intros Hlx Hly Hc Hs Hx Hy ? ? ? ?. unfold generate_surfaces_cell. run_cell.
  repeat (first [rewrite Hly | rewrite Hlx | rewrite Hc | rewrite Hs
                 | rewrite np_getitem_in by lia | rewrite np_setitem_in by lia
                 | rewrite lookup_insert_eq]; cbn).
  done.
Qed.

Lemma generate_surfaces_loop cs : ∀ s k h f n m dc ds xn xm dx yn ym dy,
  linex s = Some (mk_ndarray (xn, xm) dx) → liney s = Some (mk_ndarray (yn, ym) dy) →
  curves s = Some (mk_ndarray (n, m) dc) → surfaces s = Some (mk_ndarray (n, m) ds) →
  Forall (λ c, (0 ≤ c.1 < n ∧ 0 ≤ c.2 < m) ∧
               (c.1 < xn ∧ c.2 + 1 < xm) ∧ c.1 + 1 < yn ∧ c.2 < ym) cs →
  for_each cs (λ c, generate_surfaces_cell c.1 c.2) (mk_world s k h f)
  = (Ok tt,
     mk_world
       (set_surfaces (mk_ndarray (n, m) (fill cs (max_surface k) ds))
          (set_curves (mk_ndarray (n, m) (fill cs (max_loop k) dc)) s))
       (mk_kernel (max_point k) (max_line k) (max_loop k + Z.of_nat (length cs))
          (max_surface k + Z.of_nat (length cs)) (points k) (lines k)
          (curve_loops k ++ tagged (max_loop k) (loop_edges dx dy <$> cs))
          (plane_surfaces k ++
             tagged (max_surface k) ((λ t, [t]) <$> (tagged (max_loop k) cs).*1))
          (phys_groups k)) h f).
Proof.
  induction cs as [|[ix iy] cs IH];
    intros s k h f n m dc ds xn xm dx yn ym dy Hlx Hly Hc Hs Hcs.
  - destruct s, k; simpl in *. subst.
    unfold ret. rewrite !Z.add_0_r, !app_nil_r. done.
  - apply Forall_cons in Hcs as [((Hx & Hy) & (? & ?) & ? & ?) Hcs]. simpl in *.
    erewrite bind_ok by (eapply generate_surfaces_cell_ok; eauto).
    cbn beta.
    etrans; [eapply (IH _ _ h f n m _ _ xn xm dx yn ym dy); [done|done|done|done|exact Hcs]|].
    cbn. rewrite <- !app_assoc. cbn. do 3 f_equal; lia.
Qed.

(** ** The three generators *)

Lemma np_empty_ok n m : 0 ≤ n → 0 ≤ m → np_empty n m = Ok (mk_ndarray (n, m) ∅).
Proof.
  intros. unfold np_empty.
  destruct (Z.ltb_spec n 0), (Z.ltb_spec m 0); simpl; try lia. done.
Qed.

Lemma Forall_row_major (P : Z * Z → Prop) n m :
  (∀ ix iy, 0 ≤ ix < n → 0 ≤ iy < m → P (ix, iy)) → Forall P (row_major n m).
Proof.
  intros HP. apply Forall_forall. intros [ix iy] Hin.
  apply elem_of_row_major in Hin as [? ?]. by apply HP.
Qed.

Lemma Forall_col_major (P : Z * Z → Prop) n m :
  (∀ ix iy, 0 ≤ ix < n → 0 ≤ iy < m → P (ix, iy)) → Forall P (col_major n m).
Proof.
  intros HP. apply Forall_forall. intros [ix iy] Hin.
  apply elem_of_col_major in Hin as [? ?]. by apply HP.
Qed.

Lemma generate_nodes_spec s k h f sz :
  constructed s → mesh_size s = Some sz →
  ∃ pays, length pays = length (row_major (nx s + 1) (ny s + 1)) ∧
    generate_nodes (mk_world s k h f)
    = (Ok tt,
       mk_world (set_nodes (nodes_arr (nx s) (ny s) (max_point k)) s)
         (mk_kernel
            (max_point k + Z.of_nat (length (row_major (nx s + 1) (ny s + 1))))
            (max_line k) (max_loop k) (max_surface k)
            (points k ++ tagged (max_point k) pays) (lines k)
            (curve_loops k) (plane_surfaces k) (phys_groups k)) h f).
Proof.
  intros [Hnx Hny] Hsz.
  destruct (generate_nodes_loop (row_major (nx s + 1) (ny s + 1))
              (set_nodes (mk_ndarray (nx s + 1, ny s + 1) ∅) s) k h f
              (nx s + 1) (ny s + 1) ∅ sz) as (pays & Hlen & Hrun); [done|done| |].
  { apply Forall_row_major. cbn. lia. }
  exists pays. split; [done|].
  unfold generate_nodes. run_cell. rewrite np_empty_ok by lia. cbn.
  rewrite for_each_row_major. etrans; [exact Hrun|]. done.
Qed.

Lemma generate_lines_spec s k h f nn nm dn :
  nodes s = Some (mk_ndarray (nn, nm) dn) →
  0 ≤ nx s → 0 ≤ ny s → nx s + 1 ≤ nn → ny s + 1 ≤ nm →
  let xs := row_major (nx s) (ny s + 1) in
  let ys := col_major (nx s + 1) (ny s) in
  generate_lines (mk_world s k h f)
  = (Ok tt,
     mk_world
       (set_liney (liney_arr (nx s) (ny s) (max_line k + Z.of_nat (length xs)))
          (set_linex (linex_arr (nx s) (ny s) (max_line k)) s))
       (mk_kernel (max_point k)
          (max_line k + Z.of_nat (length xs) + Z.of_nat (length ys))
          (max_loop k) (max_surface k) (points k)
          (lines k ++ tagged (max_line k) (x_edge dn <$> xs)
                   ++ tagged (max_line k + Z.of_nat (length xs)) (y_edge dn <$> ys))
          (curve_loops k) (plane_surfaces k) (phys_groups k)) h f).
Proof.
  intros Hn Hnx Hny Hnn Hnm xs ys.
  unfold generate_lines. run_cell. rewrite np_empty_ok by lia. cbn.
  rewrite for_each_row_major.
  erewrite generate_lines_x_loop; [| done | done |]; cycle 1.
  { apply Forall_row_major. cbn. lia. }
  rewrite np_empty_ok by lia. cbn.
  rewrite for_each_col_major.
  erewrite generate_lines_y_loop; [| done | done |]; cycle 1.
  { apply Forall_col_major. cbn. lia. }
  cbn. rewrite <- app_assoc. done.
Qed.

Lemma generate_surfaces_spec s k h f xn xm dx yn ym dy :
  linex s = Some (mk_ndarray (xn, xm) dx) → liney s = Some (mk_ndarray (yn, ym) dy) →
  0 ≤ nx s → 0 ≤ ny s →
  nx s ≤ xn → ny s + 1 ≤ xm → nx s + 1 ≤ yn → ny s ≤ ym →
  let cs := row_major (nx s) (ny s) in
  generate_surfaces (mk_world s k h f)
  = (Ok tt,
     mk_world
       (set_surfaces (cells_arr (nx s) (ny s) (max_surface k))
          (set_curves (cells_arr (nx s) (ny s) (max_loop k)) s))
       (mk_kernel (max_point k) (max_line k) (max_loop k + Z.of_nat (length cs))
          (max_surface k + Z.of_nat (length cs)) (points k) (lines k)
          (curve_loops k ++ tagged (max_loop k) (loop_edges dx dy <$> cs))
          (plane_surfaces k ++
             tagged (max_surface k) ((λ t, [t]) <$> (tagged (max_loop k) cs).*1))
          (phys_groups k)) h f).
Proof.
  intros Hlx Hly Hnx Hny ? ? ? ? cs.
  unfold generate_surfaces. run_cell. rewrite np_empty_ok by lia. cbn.
  rewrite for_each_row_major.
  erewrite generate_surfaces_loop; [| done | done | done | done |]; cycle 1.
  { apply Forall_row_major. cbn. lia. }
  done.
Qed.

(** ** Reading the arrays the generators leave behind *)

Lemma np_getitem_fill n m cs base ix iy :
  NoDup cs → (ix, iy) ∈ cs → 0 ≤ ix < n → 0 ≤ iy < m →
  ∃ i : nat, cs !! i = Some (ix, iy) ∧
    np_getitem (mk_ndarray (n, m) (fill cs base ∅)) ix iy = Ok (base + 1 + Z.of_nat i).
Proof.
  intros Hnd Hin Hx Hy.
  destruct (fill_elem cs base ∅ (ix, iy) Hnd Hin) as (i & Hi & Hf).
  exists i. split; [done|]. rewrite np_getitem_in by done. by rewrite Hf.
Qed.

Lemma np_getitem_fill_inj n m cs base ix iy ix' iy' :
  NoDup cs → (ix, iy) ∈ cs → (ix', iy') ∈ cs →
  0 ≤ ix < n → 0 ≤ iy < m → 0 ≤ ix' < n → 0 ≤ iy' < m →
  np_getitem (mk_ndarray (n, m) (fill cs base ∅)) ix iy
  = np_getitem (mk_ndarray (n, m) (fill cs base ∅)) ix' iy' →
  (ix, iy) = (ix', iy').
Proof.
  intros Hnd H1 H2 ? ? ? ? E.
  destruct (np_getitem_fill n m cs base ix iy) as (i & Hi & Ei); try done.
  destruct (np_getitem_fill n m cs base ix' iy') as (i' & Hi' & Ei'); try done.
  rewrite Ei, Ei' in E. assert (i = i') as -> by (simplify_eq; lia). congruence.
Qed.

Lemma holds_tags_fill {A} n m cs base (pays : list A) :
  NoDup cs → (∀ ix iy, 0 ≤ ix < n → 0 ≤ iy < m → (ix, iy) ∈ cs) →
  length pays = length cs →
  holds_tags (mk_ndarray (n, m) (fill cs base ∅)) n m (tagged base pays).*1.
Proof.
  intros Hnd Hin Hlen ix iy Hx Hy.
  destruct (np_getitem_fill n m cs base ix iy) as (i & Hi & Ei); auto.
  eexists. split; [exact Ei|]. rewrite tagged_fst, elem_of_seqZ.
  apply lookup_lt_Some in Hi. lia.
Qed.

Lemma distinct_tags_fill n m cs base :
  NoDup cs → (∀ ix iy, 0 ≤ ix < n → 0 ≤ iy < m → (ix, iy) ∈ cs) →
  distinct_tags (mk_ndarray (n, m) (fill cs base ∅)) n m.
Proof.
  intros Hnd Hin ix iy ix' iy' ? ? ? ? E.
  eapply np_getitem_fill_inj; eauto.
Qed.

(** ** TopologyBuilder: the claims *)

Lemma length_row_major_Z n m :
  0 ≤ n → 0 ≤ m → Z.of_nat (length (row_major n m)) = n * m.
Proof. intros. rewrite length_row_major. nia. Qed.

Lemma length_col_major_Z n m :
  0 ≤ n → 0 ≤ m → Z.of_nat (length (col_major n m)) = n * m.
Proof. intros. rewrite length_col_major. nia. Qed.

(** C1: [generate_surfaces] gives every cell [(ix, iy)] one curve loop made
    of the four signed edge handles
    [[+liney[ix+1,iy]; -linex[ix,iy+1]; -liney[ix,iy]; +linex[ix,iy]]], in
    that order, and one plane surface bounded by that loop alone; the
    loops and surfaces created are one per cell, with distinct tags. *)
Theorem generate_surfaces_curve_loops w lx ly :
  linex (self w) = Some lx → liney (self w) = Some ly →
  shape lx = (nx (self w), ny (self w) + 1) →
  shape ly = (nx (self w) + 1, ny (self w)) →
  0 ≤ nx (self w) → 0 ≤ ny (self w) →
  ∃ w' cv sf new_loops new_surfaces,
    generate_surfaces w = (Ok tt, w') ∧
    curves (self w') = Some cv ∧ surfaces (self w') = Some sf ∧
    linex (self w') = Some lx ∧ liney (self w') = Some ly ∧
    curve_loops (gmsh w') = curve_loops (gmsh w) ++ new_loops ∧
    plane_surfaces (gmsh w') = plane_surfaces (gmsh w) ++ new_surfaces ∧
    Z.of_nat (length new_loops) = nx (self w) * ny (self w) ∧
    Z.of_nat (length new_surfaces) = nx (self w) * ny (self w) ∧
    NoDup new_loops.*1 ∧ NoDup new_surfaces.*1 ∧
    ∀ ix iy, 0 ≤ ix < nx (self w) → 0 ≤ iy < ny (self w) →
      ∃ c t l1 l2 l3 l4,
        np_getitem ly (ix + 1) iy = Ok l1 ∧ np_getitem lx ix (iy + 1) = Ok l2 ∧
        np_getitem ly ix iy = Ok l3 ∧ np_getitem lx ix iy = Ok l4 ∧
        np_getitem cv ix iy = Ok c ∧ np_getitem sf ix iy = Ok t ∧
        (c, [l1; - l2; - l3; l4]) ∈ new_loops ∧ (t, [c]) ∈ new_surfaces.
Proof.
  destruct w as [s k h f]. destruct lx as [[xn xm] dx], ly as [[yn ym] dy].
  cbn [self gmsh shape]. intros Hlx Hly [= -> ->] [= -> ->] Hnx Hny.
  set (cs := row_major (nx s) (ny s)).
  do 3 eexists.
  exists (tagged (max_loop k) (loop_edges dx dy <$> cs)),
    (tagged (max_surface k) ((λ t, [t]) <$> (tagged (max_loop k) cs).*1)).
  split.
  { eapply generate_surfaces_spec; eauto; lia. }
  cbn. fold cs. rewrite !tagged_length, !length_fmap, tagged_length.
  assert (Z.of_nat (length cs) = nx s * ny s) as ->
    by (apply length_row_major_Z; done).
  repeat split; try done; try apply tagged_NoDup.
  intros ix iy Hx Hy.
  assert ((ix, iy) ∈ cs) as Hin by (apply elem_of_row_major; lia).
  pose proof (NoDup_row_major (nx s) (ny s)) as Hnd. fold cs in Hnd.
  destruct (np_getitem_fill (nx s) (ny s) cs (max_loop k) ix iy)
    as (i & Hi & Ec); try done.
  destruct (np_getitem_fill (nx s) (ny s) cs (max_surface k) ix iy)
    as (i' & Hi' & Et); try done.
  assert (i' = i) as ->.
  { eapply NoDup_lookup; eauto. }
  eexists _, _, _, _, _, _.
  rewrite !np_getitem_in by lia.
  repeat split; try reflexivity; try exact Ec; try exact Et.
  - apply list_elem_of_lookup. exists i. apply tagged_lookup. split; [done|].
    rewrite list_lookup_fmap, Hi. done.
  - apply list_elem_of_lookup. exists i. apply tagged_lookup. split; [done|].
    rewrite list_lookup_fmap, tagged_fst, lookup_seqZ_lt; [done|].
    apply lookup_lt_Some in Hi. lia.
Qed.

Lemma generate_surfaces_curve_loops_witness :
  ∃ w' c t, generate_surfaces demo_lines = (Ok tt, w') ∧
    (c, [12; -6; -10; 4]) ∈ curve_loops (gmsh w') ∧
    (t, [c]) ∈ plane_surfaces (gmsh w').
Proof.
  destruct (generate_surfaces_curve_loops demo_lines
              (or_empty (linex (self demo_lines)))
              (or_empty (liney (self demo_lines))))
    as (w' & cv & sf & nl & ns & Hrun & _ & _ & _ & _ & Hl & Hs & _ & _ & _ & _ & Hcell);
    [vm_compute; reflexivity | vm_compute; reflexivity | vm_compute; reflexivity
    | vm_compute; reflexivity | vm_compute; discriminate | vm_compute; discriminate | ].
  destruct (Hcell 1 1) as (c & t & l1 & l2 & l3 & l4 & E1 & E2 & E3 & E4 & _ & _ & Hc & Ht);
    [vm_compute; split; [discriminate|reflexivity] ..|].
  vm_compute in E1, E2, E3, E4.
  injection E1 as <-. injection E2 as <-. injection E3 as <-. injection E4 as <-.
  exists w', c, t. split; [exact Hrun|]. rewrite Hl, Hs.
  split; apply elem_of_app; right; assumption.
Defined.

(** C4: on a grid with [nx, ny >= 1], [generate_nodes], [generate_lines]
    and [generate_surfaces] in turn create exactly [(nx+1)(ny+1)] points,
    [nx(ny+1) + (nx+1)ny] lines and [nx*ny] surfaces; the tags are pairwise
    distinct within each kind, every grid position of [nodes], [linex],
    [liney] and [surfaces] holds one of them, and no two positions hold the
    same one. *)
Theorem generate_entity_counts w sz :
  constructed (self w) → mesh_size (self w) = Some sz →
  1 ≤ nx (self w) → 1 ≤ ny (self w) →
  let n := nx (self w) in
  let m := ny (self w) in
  ∃ w' nd lx ly sf new_points x_lines y_lines new_surfaces,
    (generate_nodes ;;; generate_lines ;;; generate_surfaces) w = (Ok tt, w') ∧
    nodes (self w') = Some nd ∧ linex (self w') = Some lx ∧
    liney (self w') = Some ly ∧ surfaces (self w') = Some sf ∧
    points (gmsh w') = points (gmsh w) ++ new_points ∧
    lines (gmsh w') = lines (gmsh w) ++ x_lines ++ y_lines ∧
    plane_surfaces (gmsh w') = plane_surfaces (gmsh w) ++ new_surfaces ∧
    Z.of_nat (length new_points) = (n + 1) * (m + 1) ∧
    Z.of_nat (length (x_lines ++ y_lines)) = n * (m + 1) + (n + 1) * m ∧
    Z.of_nat (length new_surfaces) = n * m ∧
    NoDup new_points.*1 ∧ NoDup (x_lines ++ y_lines).*1 ∧ NoDup new_surfaces.*1 ∧
    holds_tags nd (n + 1) (m + 1) new_points.*1 ∧ distinct_tags nd (n + 1) (m + 1) ∧
    holds_tags lx n (m + 1) x_lines.*1 ∧ distinct_tags lx n (m + 1) ∧
    holds_tags ly (n + 1) m y_lines.*1 ∧ distinct_tags ly (n + 1) m ∧
    holds_tags sf n m new_surfaces.*1 ∧ distinct_tags sf n m.
Proof.
  destruct w as [s k h f]. cbn [self gmsh]. intros Hc Hsz Hnx Hny.
  destruct (generate_nodes_spec s k h f sz Hc Hsz) as (pays & Hlen & Hrun1).
  set (n := nx s) in *. set (m := ny s) in *.
  set (dn := fill (row_major (n + 1) (m + 1)) (max_point k) ∅) in *.
  set (xs := row_major n (m + 1)). set (ys := col_major (n + 1) m).
  set (cs := row_major n m).
  exists (mk_world
    (set_surfaces (cells_arr n m (max_surface k))
       (set_curves (cells_arr n m (max_loop k))
          (set_liney (liney_arr n m (max_line k + Z.of_nat (length xs)))
             (set_linex (linex_arr n m (max_line k))
                (set_nodes (nodes_arr n m (max_point k)) s)))))
    (mk_kernel (max_point k + Z.of_nat (length (row_major (n + 1) (m + 1))))
       (max_line k + Z.of_nat (length xs) + Z.of_nat (length ys))
       (max_loop k + Z.of_nat (length cs)) (max_surface k + Z.of_nat (length cs))
       (points k ++ tagged (max_point k) pays)
       (lines k ++ tagged (max_line k) (x_edge dn <$> xs)
                ++ tagged (max_line k + Z.of_nat (length xs)) (y_edge dn <$> ys))
       (curve_loops k ++ tagged (max_loop k)
          (loop_edges (fill xs (max_line k) ∅)
             (fill ys (max_line k + Z.of_nat (length xs)) ∅) <$> cs))
       (plane_surfaces k ++
          tagged (max_surface k) ((λ t, [t]) <$> (tagged (max_loop k) cs).*1))
       (phys_groups k)) h f).
  exists (nodes_arr n m (max_point k)), (linex_arr n m (max_line k)),
    (liney_arr n m (max_line k + Z.of_nat (length xs))),
    (cells_arr n m (max_surface k)).
  exists (tagged (max_point k) pays), (tagged (max_line k) (x_edge dn <$> xs)),
    (tagged (max_line k + Z.of_nat (length xs)) (y_edge dn <$> ys)),
    (tagged (max_surface k) ((λ t, [t]) <$> (tagged (max_loop k) cs).*1)).
  split.
  { erewrite bind_ok by exact Hrun1. cbn beta.
    erewrite bind_ok; cycle 1.
    { eapply (generate_lines_spec _ _ h f (n + 1) (m + 1) dn); cbn; try done; lia. }
    cbn beta.
    etrans; [eapply generate_surfaces_spec; cbn; try reflexivity; lia|].
    done. }
  cbn [self gmsh nodes linex liney surfaces set_surfaces set_curves set_liney
       set_linex set_nodes points lines plane_surfaces].
  assert (Z.of_nat (length xs) = n * (m + 1)) as Hxs
    by (apply length_row_major_Z; lia).
  assert (Z.of_nat (length ys) = (n + 1) * m) as Hys
    by (apply length_col_major_Z; lia).
  assert (Z.of_nat (length cs) = n * m) as Hcs
    by (apply length_row_major_Z; lia).
  assert (Z.of_nat (length pays) = (n + 1) * (m + 1)) as Hpays
    by (rewrite Hlen; apply length_row_major_Z; lia).
  rewrite length_app, !tagged_length, !length_fmap, tagged_length.
  repeat split; try done; try apply tagged_NoDup; try lia.
  - replace (max_line k + Z.of_nat (length xs))
      with (max_line k + Z.of_nat (length (x_edge dn <$> xs)))
      by (by rewrite length_fmap).
    rewrite <- tagged_app. apply tagged_NoDup.
  - apply holds_tags_fill; [apply NoDup_row_major| |done].
    intros. by apply elem_of_row_major.
  - apply distinct_tags_fill; [apply NoDup_row_major|].
    intros. by apply elem_of_row_major.
  - apply holds_tags_fill; [apply NoDup_row_major| |by rewrite length_fmap].
    intros. by apply elem_of_row_major.
  - apply distinct_tags_fill; [apply NoDup_row_major|].
    intros. by apply elem_of_row_major.
  - apply holds_tags_fill; [apply NoDup_col_major| |by rewrite length_fmap].
    intros. by apply elem_of_col_major.
  - apply distinct_tags_fill; [apply NoDup_col_major|].
    intros. by apply elem_of_col_major.
  - apply holds_tags_fill; [apply NoDup_row_major| |].
    + intros. by apply elem_of_row_major.
    + by rewrite length_fmap, length_fmap, tagged_length.
  - apply distinct_tags_fill; [apply NoDup_row_major|].
    intros. by apply elem_of_row_major.
Qed.

Lemma generate_entity_counts_witness :
  ∃ w' new_points new_lines new_surfaces,
    (generate_nodes ;;; generate_lines ;;; generate_surfaces)
      ((modify_self (set_mesh_size 1%Q) demo).2) = (Ok tt, w') ∧
    points (gmsh w') = new_points ∧ length new_points = 9%nat ∧
    lines (gmsh w') = new_lines ∧ length new_lines = 12%nat ∧
    plane_surfaces (gmsh w') = new_surfaces ∧ length new_surfaces = 4%nat.
Proof.
  destruct (generate_entity_counts ((modify_self (set_mesh_size 1%Q) demo).2) 1%Q)
    as (w' & nd & lx & ly & sf & np & xl & yl & ns & Hrun & _ & _ & _ & _
        & Hp & Hl & Hs & Lp & Ll & Ls & _);
    [split; reflexivity | reflexivity | vm_compute; discriminate
    | vm_compute; discriminate | ].
  exists w', np, (xl ++ yl), ns. cbn in Lp, Ll, Ls.
  repeat split; [exact Hrun | exact Hp | lia | exact Hl | lia | exact Hs | lia].
Defined.

(** ** MaterialAssigner: the loop over the cells *)

Lemma py_getitem_cases {A} (l : list A) i :
  (∃ a, py_getitem l i = Ok a) ∨ py_getitem l i = Raise IndexError.
Proof.
  unfold py_getitem. destruct (norm_index _ i); [|by right].
  destruct (l !! _); [left; eauto|by right].
Qed.

Lemma matrix_getitem_cases mats r c :
  (∃ v, matrix_getitem mats r c = Ok v) ∨ matrix_getitem mats r c = Raise IndexError.
Proof.
  unfold matrix_getitem. destruct (norm_index _ r); [|by right].
  destruct (mats !! _); [apply py_getitem_cases|by right].
Qed.

Lemma assign_cell_run s k h f mats n m ds gs ix iy :
  _materials s = Some mats → surfaces s = Some (mk_ndarray (n, m) ds) →
  physical_groups s = Some gs → 0 ≤ ix < n → 0 ≤ iy < m →
  assign_cell ix iy (mk_world s k h f)
  = match cell_group mats (ny s) (length gs) (ix, iy) with
    | Some g =>
        (Ok tt, mk_world
           (set_physical_groups (alter (append_entity (getd ds (ix, iy))) g gs) s) k h f)
    | None => (Raise IndexError, mk_world s k h f)
    end.
Proof.
  intros Hm Hs Hg Hx Hy. unfold assign_cell, cell_group. run_cell.
  rewrite Hm; cbn.
  destruct (matrix_getitem_cases mats (ny s - 1 - iy) ix) as [[v ->]| ->]; [|done].
  cbn. rewrite Hs; cbn. rewrite np_getitem_in by done. cbn. rewrite Hg; cbn.
  unfold groups_append. destruct (norm_index _ (v - 1)); done.
Qed.

Lemma assign_loop mats n m ds cs : ∀ s k h f gs,
  _materials s = Some mats → surfaces s = Some (mk_ndarray (n, m) ds) →
  physical_groups s = Some gs →
  Forall (λ c, 0 ≤ c.1 < n ∧ 0 ≤ c.2 < m) cs →
  match assign mats (ny s) ds cs gs with
  | Some gs' =>
      for_each cs (λ c, assign_cell c.1 c.2) (mk_world s k h f)
      = (Ok tt, mk_world (set_physical_groups gs' s) k h f)
  | None =>
      ∃ gs', for_each cs (λ c, assign_cell c.1 c.2) (mk_world s k h f)
             = (Raise IndexError, mk_world (set_physical_groups gs' s) k h f)
  end.
Proof.
  induction cs as [|[ix iy] cs IH]; intros s k h f gs Hm Hs Hg Hcs.
  - cbn. unfold ret. destruct s; cbn in *. by subst.
  - apply Forall_cons in Hcs as [[Hx Hy] Hcs]. cbn [assign for_each fst snd].
    unfold bind. erewrite assign_cell_run by eauto.
    destruct (cell_group mats (ny s) (length gs) (ix, iy)) as [g|].
    2:{ exists gs. destruct s; cbn in *. by subst. }
    specialize (IH (set_physical_groups (alter (append_entity (getd ds (ix, iy))) g gs) s)
                  k h f _ Hm Hs eq_refl Hcs).
    cbn [ny set_physical_groups] in IH.
    destruct (assign mats (ny s) ds cs _) as [gs'|].
    + etrans; [exact IH|]. done.
    + destruct IH as [gs' IH]. exists gs'. etrans; [exact IH|]. done.
Qed.

Lemma assign_length mats m ds cs : ∀ gs gs',
  assign mats m ds cs gs = Some gs' → length gs' = length gs.
Proof.
  induction cs as [|c cs IH]; intros gs gs' H; cbn in H; [by simplify_eq|].
  destruct (cell_group _ _ _ c) as [g|]; [|done].
  apply IH in H. by rewrite H, length_alter.
Qed.

Lemma assign_names mats m ds cs : ∀ gs gs',
  assign mats m ds cs gs = Some gs' → material_name <$> gs' = material_name <$> gs.
Proof.
  induction cs as [|c cs IH]; intros gs gs' H; cbn in H; [by simplify_eq|].
  destruct (cell_group _ _ _ c) as [g|]; [|done].
  apply IH in H. rewrite H.
  apply list_eq. intros i. rewrite !list_lookup_fmap.
  destruct (decide (g = i)) as [->|Hne].
  - rewrite list_lookup_alter_eq. by destruct (_ !! i).
  - by rewrite list_lookup_alter_ne.
Qed.

Lemma assign_cells mats m ds cs : ∀ gs gs',
  assign mats m ds cs gs = Some gs' →
  Forall (λ c, ∃ g, cell_group mats m (length gs) c = Some g ∧ (g < length gs)%nat) cs.
Proof.
  induction cs as [|c cs IH]; intros gs gs' H; cbn in H; [constructor|].
  destruct (cell_group _ _ _ c) as [g|] eqn:E; [|done].
  apply IH in H. rewrite length_alter in H. constructor; [|done].
  exists g. split; [done|]. unfold cell_group in E.
  destruct (matrix_getitem _ _ _); [|done].
  unfold norm_index in E.
  repeat case_match; simplify_eq/=; lia.
Qed.

Lemma assign_total mats m ds cs : ∀ gs,
  Forall (λ c, is_Some (cell_group mats m (length gs) c)) cs →
  is_Some (assign mats m ds cs gs).
Proof.
  induction cs as [|c cs IH]; intros gs H; cbn; [eauto|].
  apply Forall_cons in H as [[g Hg] H]. rewrite Hg. apply IH.
  by rewrite length_alter.
Qed.

(** Group [g] receives the surfaces of the cells that go to it, in the
    order of the loop. *)
Lemma assign_entities mats m ds cs : ∀ gs gs' (g : nat),
  assign mats m ds cs gs = Some gs' →
  entities <$> gs' !! g
  = (λ grp, entities grp ++
       (getd ds <$> filter (λ c, cell_group mats m (length gs) c = Some g) cs))
    <$> gs !! g.
Proof.
  induction cs as [|c cs IH]; intros gs gs' g H; cbn in H.
  - simplify_eq. destruct (gs' !! g); cbn; [|done]. by rewrite app_nil_r.
  - destruct (cell_group _ _ _ c) as [g0|] eqn:E; [|done].
    rewrite (IH _ _ g H), length_alter. rewrite filter_cons.
    destruct (decide (g0 = g)) as [->|Hne].
    + rewrite list_lookup_alter_eq. rewrite decide_True by done.
      destruct (gs !! g); cbn; [|done]. by rewrite <- app_assoc.
    + rewrite list_lookup_alter_ne by done. rewrite decide_False by congruence.
      done.
Qed.

Lemma concat_alter_append (gs : list group) (g : nat) e :
  (g < length gs)%nat →
  concat (entities <$> alter (append_entity e) g gs) ≡ₚ e :: concat (entities <$> gs).
Proof.
  revert g. induction gs as [|grp gs IH]; intros g Hg; cbn in *; [lia|].
  destruct g as [|g]; cbn.
  - rewrite <- app_assoc. cbn. by rewrite <- Permutation_middle.
  - rewrite IH by lia. by rewrite <- Permutation_middle.
Qed.

Lemma assign_concat mats m ds cs : ∀ gs gs',
  assign mats m ds cs gs = Some gs' →
  concat (entities <$> gs') ≡ₚ concat (entities <$> gs) ++ (getd ds <$> cs).
Proof.
  induction cs as [|c cs IH]; intros gs gs' H.
  - cbn in H. simplify_eq. by rewrite app_nil_r.
  - pose proof (assign_cells _ _ _ _ _ _ H) as Hc.
    apply Forall_cons in Hc as [(g & Hg & Hlt) _].
    cbn in H. rewrite Hg in H. rewrite (IH _ _ H).
    rewrite concat_alter_append by done. cbn.
    by rewrite <- Permutation_middle.
Qed.

(** ** [generate_physical_groups] in closed form *)

Lemma register_loop (l : list (Z * group)) : ∀ s k h f,
  for_each l (λ '(group_id, g),
    kernel_call (λ k,
      (tt, addPhysicalGroup 2 (entities g) (group_id + 1) (material_name g) k)))
    (mk_world s k h f)
  = (Ok tt,
     mk_world s
       (mk_kernel (max_point k) (max_line k) (max_loop k) (max_surface k)
          (points k) (lines k) (curve_loops k) (plane_surfaces k)
          (phys_groups k ++
             ((λ '(group_id, g), (2, entities g, group_id + 1, material_name g)) <$> l)))
       h f).
Proof.
  induction l as [|[i g] l IH]; intros s k h f.
  - cbn. unfold ret. destruct k; cbn. by rewrite app_nil_r.
  - cbn [for_each]. unfold bind at 1, kernel_call at 1. cbn.
    rewrite IH. cbn. by rewrite <- app_assoc.
Qed.

Lemma generate_physical_groups_run s k h f mats n m ds :
  _materials s = Some mats → surfaces s = Some (mk_ndarray (n, m) ds) →
  nx s ≤ n → ny s ≤ m →
  let gs0 := (λ nm, mk_group nm []) <$> effective_names s mats in
  match assign mats (ny s) ds (row_major (nx s) (ny s)) gs0 with
  | Some gs =>
      generate_physical_groups (mk_world s k h f)
      = (Ok tt, mk_world (set_physical_groups gs (with_names s mats)) (register gs k) h f)
  | None =>
      ∃ gs, generate_physical_groups (mk_world s k h f)
            = (Raise IndexError,
               mk_world (set_physical_groups gs (with_names s mats)) k h f)
  end.
Proof.
  intros Hm Hs Hn Hny gs0.
  pose proof (assign_loop mats n m ds (row_major (nx s) (ny s))
    (set_physical_groups gs0 (with_names s mats)) k h f gs0) as Hloop.
  cbn [ny set_physical_groups with_names set_material_names set_n_matrial] in Hloop.
  assert (generate_physical_groups (mk_world s k h f)
          = (for_each (row_major (nx s) (ny s)) (λ c, assign_cell c.1 c.2) ;;;
             gs <- attr physical_groups ;;
             for_each (enumerate gs) (λ '(group_id, g),
               kernel_call (λ k,
                 (tt, addPhysicalGroup 2 (entities g) (group_id + 1) (material_name g) k))))
             (mk_world (set_physical_groups gs0 (with_names s mats)) k h f)) as ->.
  { unfold generate_physical_groups, gs0, with_names, effective_names. run_cell.
    rewrite Hm. run_cell.
    destruct (_material_names s) as [names|] eqn:En; cbn.
    - rewrite <- for_each_row_major. destruct s; cbn in *; subst. done.
    - rewrite <- for_each_row_major. done. }
  destruct (assign mats (ny s) ds (row_major (nx s) (ny s)) gs0) as [gs|].
  - erewrite bind_ok
      by (apply Hloop; [done | done | done | apply Forall_row_major; cbn; lia]).
    run_cell. rewrite register_loop. done.
  - destruct Hloop as [gs Hgs]; [done | done | done | apply Forall_row_major; cbn; lia |].
    exists gs. erewrite bind_raise by exact Hgs. done.
Qed.

(** ** MaterialAssigner: the claims *)

Lemma filter_ext_in {A} (P1 P2 : A → Prop)
    `{!∀ x, Decision (P1 x), !∀ x, Decision (P2 x)} (l : list A) :
  (∀ x, x ∈ l → P1 x ↔ P2 x) → filter P1 l = filter P2 l.
Proof.
  induction l as [|a l IH]; intros Hext; [done|].
  rewrite !filter_cons. rewrite IH by (intros; apply Hext; by right).
  assert (P1 a ↔ P2 a) as Ha by (apply Hext; by left).
  destruct (decide (P1 a)), (decide (P2 a)); tauto.
Qed.

Lemma matrix_getitem_in mats n m r c k :
  length mats = Z.to_nat m → Forall (λ row, length row = Z.to_nat n) mats →
  Forall (Forall (λ v, 1 ≤ v ≤ k)) mats →
  0 ≤ r < m → 0 ≤ c < n →
  ∃ v, matrix_getitem mats r c = Ok v ∧ 1 ≤ v ≤ k.
Proof.
  intros Hlen Hrows Hvals Hr Hc. unfold matrix_getitem.
  rewrite norm_index_in by lia.
  destruct (mats !! Z.to_nat r) as [row|] eqn:Er;
    [|apply lookup_ge_None in Er; lia].
  pose proof (Forall_lookup_1 _ _ _ _ Hrows Er) as Hrow.
  pose proof (Forall_lookup_1 _ _ _ _ Hvals Er) as Hval. cbn in Hrow.
  destruct (py_getitem_in row c) as (v & Hv & ->); [lia|].
  exists v. split; [done|]. exact (Forall_lookup_1 _ _ _ _ Hval Hv).
Qed.

(** C2: a cell [(ix, iy)] goes to the group at index [M[ny-1-iy, ix] - 1];
    for a matrix of shape [(ny, nx)] with values in [1..k], [k] the number
    of groups, the call succeeds and group [g] holds exactly the surfaces
    of the cells whose material id is [g], in the order of the loop. *)
Theorem physical_groups_by_material w mats sf :
  _materials (self w) = Some mats → surfaces (self w) = Some sf →
  shape sf = (nx (self w), ny (self w)) →
  0 ≤ nx (self w) → 0 ≤ ny (self w) →
  let n := nx (self w) in
  let m := ny (self w) in
  let k := Z.of_nat (length (effective_names (self w) mats)) in
  length mats = Z.to_nat m → Forall (λ row, length row = Z.to_nat n) mats →
  Forall (Forall (λ v, 1 ≤ v ≤ k)) mats →
  ∃ w' gs,
    generate_physical_groups w = (Ok tt, w') ∧
    physical_groups (self w') = Some gs ∧ Z.of_nat (length gs) = k ∧
    ∀ g, 0 ≤ g < k →
      ∃ grp, gs !! Z.to_nat g = Some grp ∧
        entities grp
        = getd (data sf) <$> filter (λ c, material_id mats m c = Ok g) (row_major n m) ∧
        ∀ t, t ∈ entities grp ↔
          ∃ ix iy, (0 ≤ ix < n ∧ 0 ≤ iy < m) ∧ np_getitem sf ix iy = Ok t ∧
                   material_id mats m (ix, iy) = Ok g.
Proof.
  destruct w as [s k0 h f], sf as [[sn sm] ds]. cbn [self gmsh shape data].
  intros Hm Hs [= -> ->] Hnx Hny Hlen Hrows Hvals.
  set (names := effective_names s mats) in *.
  set (gs0 := (λ nm, mk_group nm []) <$> names).
  assert (∀ c, c ∈ row_major (nx s) (ny s) →
            ∃ v, matrix_getitem mats (ny s - 1 - c.2) c.1 = Ok v ∧
                 1 ≤ v ≤ Z.of_nat (length names)) as Hcell.
  { intros [ix iy] [? ?]%elem_of_row_major.
    eapply matrix_getitem_in; eauto; cbn; lia. }
  assert (∀ c (g : nat), c ∈ row_major (nx s) (ny s) →
            cell_group mats (ny s) (length gs0) c = Some g
            ↔ material_id mats (ny s) c = Ok (Z.of_nat g)) as Hgrp.
  { intros c g Hc. destruct (Hcell c Hc) as (v & Ev & Hv).
    unfold cell_group, material_id. rewrite Ev. unfold gs0.
    rewrite length_fmap, norm_index_in by lia. cbn.
    split; intros [= E]; f_equal; lia. }
  pose proof (generate_physical_groups_run s k0 h f mats (nx s) (ny s) ds Hm Hs
                ltac:(lia) ltac:(lia)) as Hrun.
  cbn zeta in Hrun. fold names gs0 in Hrun.
  destruct (assign_total mats (ny s) ds (row_major (nx s) (ny s)) gs0) as [gs Hgs].
  { apply Forall_forall. intros c Hc. destruct (Hcell c Hc) as (v & Ev & Hv).
    unfold cell_group. rewrite Ev. unfold gs0.
    rewrite length_fmap, norm_index_in by lia. by eexists. }
  rewrite Hgs in Hrun.
  exists (mk_world (set_physical_groups gs (with_names s mats)) (register gs k0) h f), gs.
  split; [exact Hrun|]. split; [done|].
  pose proof (assign_length _ _ _ _ _ _ Hgs) as Hl.
  split; [rewrite Hl; unfold gs0; by rewrite length_fmap|].
  intros g Hg.
  pose proof (assign_entities _ _ _ _ _ _ (Z.to_nat g) Hgs) as He.
  destruct (gs0 !! Z.to_nat g) as [grp0|] eqn:E0.
  2:{ apply lookup_ge_None in E0. unfold gs0 in E0. rewrite length_fmap in E0. lia. }
  destruct (gs !! Z.to_nat g) as [grp|] eqn:E; [|done].
  cbn in He. injection He as He. exists grp. split; [done|].
  assert (entities grp0 = []) as Hnil.
  { unfold gs0 in E0. rewrite list_lookup_fmap in E0.
    destruct (names !! _); simplify_eq/=. done. }
  rewrite Hnil in He. cbn in He.
  assert (entities grp = getd ds <$>
            filter (λ c, material_id mats (ny s) c = Ok g) (row_major (nx s) (ny s))) as Hent.
  { rewrite He. f_equal. apply filter_ext_in. intros c Hc.
    rewrite (Hgrp c _ Hc). by rewrite Z2Nat.id by lia. }
  split; [exact Hent|]. intros t. rewrite Hent, list_elem_of_fmap. split.
  - intros ([ix iy] & -> & [Hmat Hin]%list_elem_of_filter).
    apply elem_of_row_major in Hin as [? ?].
    exists ix, iy. split; [done|]. split; [|done]. by rewrite np_getitem_in.
  - intros (ix & iy & [? ?] & Ht & Hmat). exists (ix, iy).
    rewrite np_getitem_in in Ht by done. split; [by simplify_eq|].
    apply list_elem_of_filter. split; [done|]. by apply elem_of_row_major.
Qed.

Lemma physical_groups_by_material_witness :
  ∃ w' gs grp, generate_physical_groups demo_built = (Ok tt, w') ∧
    physical_groups (self w') = Some gs ∧
    gs !! 0%nat = Some grp ∧ entities grp = [2; 3].
Proof.
  destruct (physical_groups_by_material demo_built [[1; 2]; [2; 1]]
              (or_empty (surfaces (self demo_built))))
    as (w' & gs & Hrun & Hgs & _ & Hg);
    [vm_compute; reflexivity | vm_compute; reflexivity | vm_compute; reflexivity
    | vm_compute; discriminate | vm_compute; discriminate | vm_compute; reflexivity
    | repeat constructor | repeat constructor; vm_compute; discriminate | ].
  destruct (Hg 0) as (grp & E & Hent & _); [vm_compute; split; [discriminate|reflexivity]|].
  exists w', gs, grp. split; [exact Hrun|]. split; [exact Hgs|]. split; [exact E|].
  rewrite Hent. vm_compute. reflexivity.
Defined.

Lemma flatten_groups_fst gs : (flatten_groups gs).*1 = concat (entities <$> gs).
Proof.
  unfold flatten_groups.
  assert (∀ l : list (Z * group),
            (l ≫= λ '(group_id, g), (λ entity, (entity, group_id)) <$> entities g).*1
            = concat (entities <$> l.*2)) as ->.
  { induction l as [|[i g] l IH]; [done|].
    rewrite bind_cons, fmap_app, IH. cbn. f_equal.
    rewrite <- list_fmap_compose. apply list_fmap_id. }
  unfold enumerate. rewrite snd_zip; [done|]. rewrite length_seqZ. lia.
Qed.

Lemma elem_of_concat {A} (a : A) (ls : list (list A)) :
  a ∈ concat ls ↔ ∃ l, a ∈ l ∧ l ∈ ls.
Proof.
  induction ls as [|l ls IH]; cbn.
  - split; [by intros ?%elem_of_nil|by intros (? & _ & ?%elem_of_nil)].
  - rewrite elem_of_app, IH. split.
    + intros [?|(l' & ? & ?)]; [exists l; split; [done|by left]|].
      exists l'. split; [done|by right].
    + intros (l' & ? & [->|?]%elem_of_cons); [by left|right; eauto].
Qed.

Lemma NoDup_concat_unique {A} (ls : list (list A)) i j l1 l2 a :
  NoDup (concat ls) → ls !! i = Some l1 → ls !! j = Some l2 →
  a ∈ l1 → a ∈ l2 → i = j.
Proof.
  revert i j. induction ls as [|l ls IH]; intros i j Hnd Hi Hj H1 H2; [done|].
  cbn in Hnd. apply NoDup_app in Hnd as (_ & Hdisj & Hnd).
  assert (∀ (n : nat) l', ls !! n = Some l' → a ∈ l' → a ∈ concat ls) as Hin.
  { intros n l' Hn Ha. apply elem_of_concat. exists l'. split; [done|].
    by eapply list_elem_of_lookup_2. }
  destruct i as [|i], j as [|j]; cbn in Hi, Hj; simplify_eq; try done.
  - exfalso. eapply Hdisj; eauto.
  - exfalso. eapply Hdisj; eauto.
  - f_equal. eauto.
Qed.

Lemma registration_tags gs :
  (λ r, r.1.2) <$> registration gs = seqZ 1 (Z.of_nat (length gs)).
Proof.
  unfold registration, enumerate.
  rewrite <- (fmap_add_seqZ 1 0), <- list_fmap_compose.
  rewrite <- (fst_zip (seqZ 0 (Z.of_nat (length gs))) gs) at 2
    by (rewrite length_seqZ; lia).
  rewrite <- list_fmap_compose. apply list_fmap_ext. intros ? [i g] _. cbn. lia.
Qed.

(** C6: when [generate_physical_groups] completes there is one group per
    entry of [_material_names] (the names supplied, or the defaulted
    ones), registered under the tags [1..k]; the (surface, group) pairs
    are [nx*ny] in number and list every surface exactly once, so every
    cell's surface lies in one group and in no other. *)
Theorem physical_groups_partition w w' sf :
  surfaces (self w) = Some sf → shape sf = (nx (self w), ny (self w)) →
  0 ≤ nx (self w) → 0 ≤ ny (self w) →
  distinct_tags sf (nx (self w)) (ny (self w)) →
  generate_physical_groups w = (Ok tt, w') →
  ∃ mats gs,
    _materials (self w) = Some mats ∧
    _material_names (self w') = Some (effective_names (self w) mats) ∧
    physical_groups (self w') = Some gs ∧
    material_name <$> gs = effective_names (self w) mats ∧
    phys_groups (gmsh w') = phys_groups (gmsh w) ++ registration gs ∧
    (λ r, r.1.2) <$> registration gs = seqZ 1 (Z.of_nat (length gs)) ∧
    (flatten_groups gs).*1
      ≡ₚ getd (data sf) <$> row_major (nx (self w)) (ny (self w)) ∧
    NoDup (flatten_groups gs).*1 ∧
    Z.of_nat (length (flatten_groups gs)) = nx (self w) * ny (self w) ∧
    ∀ ix iy, 0 ≤ ix < nx (self w) → 0 ≤ iy < ny (self w) →
      ∃ t g grp, np_getitem sf ix iy = Ok t ∧
        gs !! g = Some grp ∧ t ∈ entities grp ∧
        ∀ g' grp', gs !! g' = Some grp' → t ∈ entities grp' → g' = g.
Proof.
  destruct w as [s k h f], sf as [[sn sm] ds]. cbn [self gmsh shape data].
  intros Hs [= -> ->] Hnx Hny Hdist Hrun.
  destruct (_materials s) as [mats|] eqn:Hm.
  2:{ unfold generate_physical_groups in Hrun. revert Hrun. run_cell.
      rewrite Hm. unfold raise. done. }
  pose proof (generate_physical_groups_run s k h f mats (nx s) (ny s) ds Hm Hs
                ltac:(lia) ltac:(lia)) as Hrun'.
  cbn zeta in Hrun'.
  set (cs := row_major (nx s) (ny s)) in *.
  destruct (assign mats (ny s) ds cs _) as [gs|] eqn:Hgs.
  2:{ destruct Hrun' as [gs Hrun']. congruence. }
  rewrite Hrun' in Hrun. injection Hrun as <-.
  exists mats, gs. cbn.
  pose proof (assign_concat _ _ _ _ _ _ Hgs) as Hperm.
  assert (concat (entities <$>
            ((λ nm, mk_group nm []) <$> effective_names s mats)) = []) as Hnil.
  { generalize (effective_names s mats). intros l.
    induction l as [|a l IH]; [done|]. exact IH. }
  rewrite Hnil in Hperm. cbn in Hperm.
  assert (NoDup (getd ds <$> cs)) as Hnd.
  { apply NoDup_fmap_2_strong; [|apply NoDup_row_major].
    intros [ix iy] [ix' iy'] [? ?]%elem_of_row_major [? ?]%elem_of_row_major E.
    apply Hdist; try done. rewrite !np_getitem_in by done. unfold getd in E.
    by rewrite E. }
  assert (Z.of_nat (length (flatten_groups gs)) = nx s * ny s) as Hlen.
  { rewrite <- (length_fmap fst), flatten_groups_fst, Hperm, length_fmap.
    apply length_row_major_Z; done. }
  repeat split; try done.
  - rewrite (assign_names _ _ _ _ _ _ Hgs), <- list_fmap_compose. cbn.
    apply list_fmap_id.
  - apply registration_tags.
  - by rewrite flatten_groups_fst.
  - by rewrite flatten_groups_fst, Hperm.
  - intros ix iy Hx Hy.
    assert (getd ds (ix, iy) ∈ concat (entities <$> gs)) as Hin.
    { rewrite Hperm. apply list_elem_of_fmap_2. apply elem_of_row_major. done. }
    apply elem_of_concat in Hin as (l & Ht & Hl).
    apply list_elem_of_lookup in Hl as (g & Hg).
    rewrite list_lookup_fmap in Hg.
    destruct (gs !! g) as [grp|] eqn:Eg; [|done]. cbn in Hg. simplify_eq.
    exists (getd ds (ix, iy)), g, grp.
    rewrite np_getitem_in by done. repeat split; try done.
    intros g' grp' Eg' Ht'.
    eapply (NoDup_concat_unique (entities <$> gs) g' g).
    + by rewrite Hperm.
    + rewrite list_lookup_fmap, Eg'. done.
    + rewrite list_lookup_fmap, Eg. done.
    + exact Ht'.
    + exact Ht.
Qed.

Lemma physical_groups_partition_witness :
  ∃ gs, physical_groups (self (generate_physical_groups demo_default_built).2) = Some gs ∧
    material_name <$> gs = ["0"; "1"] ∧
    length (flatten_groups gs) = 4%nat ∧ NoDup (flatten_groups gs).*1.
Proof.
  destruct (physical_groups_partition demo_default_built
              (generate_physical_groups demo_default_built).2
              (or_empty (surfaces (self demo_default_built))))
    as (mats & gs & Hm & _ & Hgs & Hnames & _ & _ & _ & Hnd & Hlen & _);
    [vm_compute; reflexivity | vm_compute; reflexivity | vm_compute; discriminate
    | vm_compute; discriminate | | vm_compute; reflexivity | ].
  - assert (or_empty (surfaces (self demo_default_built)) = cells_arr 2 2 0) as ->
      by (vm_compute; reflexivity).
    assert (nx (self demo_default_built) = 2) as -> by (vm_compute; reflexivity).
    assert (ny (self demo_default_built) = 2) as -> by (vm_compute; reflexivity).
    apply distinct_tags_fill; [apply NoDup_row_major|].
    intros. by apply elem_of_row_major.
  - exists gs. split; [exact Hgs|].
    assert (mats = [[1; 2]; [2; 1]]) as -> by (vm_compute in Hm; congruence).
    split; [exact Hnames|]. split; [|exact Hnd].
    assert (nx (self demo_default_built) = 2) as Hx by (vm_compute; reflexivity).
    assert (ny (self demo_default_built) = 2) as Hy by (vm_compute; reflexivity).
    rewrite Hx, Hy in Hlen. lia.
Defined.

(** ** The configuration error and the defaulted names *)

Lemma for_each_preserves {A} (P : world → Prop) (l : list A) body :
  (∀ a w r w', P w → body a w = (r, w') → P w') →
  ∀ w r w', P w → for_each l body w = (r, w') → P w'.
Proof.
  intros Hb. induction l as [|a l IH]; intros w r w' HP Hrun; cbn in Hrun.
  - unfold ret in Hrun. by simplify_eq.
  - unfold bind in Hrun. destruct (body a w) as [[[]|e] w1] eqn:E.
    + eapply IH; [|exact Hrun]. eapply Hb; eauto.
    + simplify_eq. eapply Hb; eauto.
Qed.

Lemma for_each_raise {A} (l : list A) body e :
  ∀ w w', for_each l body w = (Raise e, w') →
  ∃ a w1 w2, a ∈ l ∧ body a w1 = (Raise e, w2).
Proof.
  induction l as [|a l IH]; intros w w' Hrun; cbn in Hrun; [done|].
  unfold bind in Hrun. destruct (body a w) as [[[]|e'] w1] eqn:E.
  - destruct (IH _ _ Hrun) as (a' & w2 & w3 & Hin & Hb).
    exists a', w2, w3. split; [by right|done].
  - simplify_eq. exists a, w, w'. split; [by left|done].
Qed.

Lemma assign_cell_cases ix iy w r w' :
  assign_cell ix iy w = (r, w') →
  (∀ msg, r ≠ Raise (RuntimeError msg)) ∧
  _materials (self w') = _materials (self w) ∧
  _material_names (self w') = _material_names (self w).
Proof.
  unfold assign_cell, bind, not_none, get_self, lift, attr, modify_self,
    np_getitem, matrix_getitem, py_getitem, groups_append.
  intros H. repeat case_match; simplify_eq/=; done.
Qed.

(** The call ends in [RuntimeError] exactly when the matrix is [None]. *)
Lemma configuration_error_iff w :
  (∃ msg w', generate_physical_groups w = (Raise (RuntimeError msg), w'))
  ↔ _materials (self w) = None.
Proof.
  split.
  - intros (msg & w' & Hrun). destruct (_materials (self w)) as [mats|] eqn:Hm; [|done].
    exfalso. revert Hrun. unfold generate_physical_groups.
    unfold bind at 1, get_self at 1. rewrite Hm.
    unfold bind at 1, modify_self at 1. unfold bind at 1, get_self at 1.
    match goal with |- context [bind ?m _ ?w0] =>
      assert (∃ w1, m w0 = (Ok tt, w1)) as [w1 E] end.
    { cbn. destruct (_material_names (self w)); unfold ret; cbn; [eauto|].
      run_cell. eauto. }
    rewrite (bind_ok _ _ _ _ _ E).
    unfold bind at 1, not_none at 1. destruct (_material_names (self w1)); [|done].
    unfold bind at 1, modify_self at 1. unfold bind at 1, get_self at 1. cbn [self].
    unfold bind at 1.
    match goal with |- context [for_each ?l ?b ?w0] =>
      destruct (for_each l b w0) as [[[]|e] w2] eqn:Eloop end.
    + run_cell. destruct (physical_groups (self w2)); [|done].
      destruct w2. rewrite register_loop. done.
    + intros [= -> ->]. apply for_each_raise in Eloop as (iy & w3 & w4 & _ & Eloop).
      apply for_each_raise in Eloop as (ix & w5 & w6 & _ & Eloop).
      apply assign_cell_cases in Eloop as [Hne _]. by eapply Hne.
  - intros Hm. exists "Materials not found.", w.
    unfold generate_physical_groups. run_cell. by rewrite Hm.
Qed.

(** With the matrix present and the names absent the names become
    [str(i)] for [i] in [range(len(materials))], whatever happens next, and
    the matrix is left as it is. *)
Lemma default_material_names w mats r w' :
  _materials (self w) = Some mats → _material_names (self w) = None →
  generate_physical_groups w = (r, w') →
  _material_names (self w') = Some (map str (range (Z.of_nat (length mats)))) ∧
  _materials (self w') = Some mats ∧
  ∀ msg, r ≠ Raise (RuntimeError msg).
Proof.
  intros Hm Hn Hrun. split; [|split].
  3:{ intros msg ->. assert (_materials (self w) = None); [|congruence].
      apply configuration_error_iff. eauto. }
  all: revert Hrun; unfold generate_physical_groups;
    unfold bind at 1, get_self at 1; rewrite Hm;
    run_cell; rewrite Hn; cbn;
    match goal with |- context [for_each ?l ?b ?w0] =>
      destruct (for_each l b w0) as [[[]|e] w2] eqn:Eloop end;
    (eapply (for_each_preserves
       (λ w, _material_names (self w) = Some (map str (range (Z.of_nat (length mats))))
             ∧ _materials (self w) = Some mats)) in Eloop as [E1 E2];
     [| | by split];
     [| intros iy wa ra wb HP Hb;
        eapply (for_each_preserves
          (λ w, _material_names (self w) = Some (map str (range (Z.of_nat (length mats))))
                ∧ _materials (self w) = Some mats)); [|exact HP|exact Hb];
        intros ix wc rc wd [? ?] Hc;
        apply assign_cell_cases in Hc as (_ & -> & ->); by split]).
  all: try (intros [= <- <-]; done).
  all: destruct (physical_groups (self w2)); [|intros [= <- <-]; done].
  all: destruct w2; rewrite register_loop; intros [= <- <-]; done.
Qed.

(** C7: on the 2x1 grid with matrix [[1, 2]] and no names, the names are
    defaulted from the number of matrix rows to [["0"]], and the cell with
    material 2 then raises [IndexError]; with two names supplied the same
    call succeeds. *)
Theorem default_names_index_error :
  (generate 1%Q strip).1 = Raise IndexError ∧
  _material_names (self (generate 1%Q strip).2) = Some ["0"] ∧
  (generate 1%Q strip_named).1 = Ok tt.
Proof. vm_compute. done. Qed.

(** ** SelectionAlgebra: the filters *)

Lemma default_selected_run w :
  default_selected w
  = (Ok (length (heap w)),
     with_heap w (heap w ++ [[range (nx (self w)); range (ny (self w))]])).
Proof. done. Qed.

Lemma greater_some w r sx sy dim bound :
  heap w !! r = Some [sx; sy] → dim = 0 ∨ dim = 1 →
  greater dim bound (Some r) w
  = (Ok r, with_heap w (<[r := filtered (λ i, bound ≤ i) dim sx sy]> (heap w))).
Proof. unfold greater. filter_some w. Qed.

Lemma less_some w r sx sy dim bound :
  heap w !! r = Some [sx; sy] → dim = 0 ∨ dim = 1 →
  less dim bound (Some r) w
  = (Ok r, with_heap w (<[r := filtered (λ i, i ≤ bound) dim sx sy]> (heap w))).
Proof. unfold less. filter_some w. Qed.

Lemma equal_some w r sx sy dim bound :
  heap w !! r = Some [sx; sy] → dim = 0 ∨ dim = 1 →
  equal dim bound (Some r) w
  = (Ok r, with_heap w (<[r := filtered (λ i, i = bound) dim sx sy]> (heap w))).
Proof. unfold equal. filter_some w. Qed.

Lemma insert_last {A} (l : list A) a b : <[length l := b]> (l ++ [a]) = l ++ [b].
Proof. rewrite insert_app_r_alt by lia. by rewrite Nat.sub_diag. Qed.

Lemma greater_none w dim bound :
  dim = 0 ∨ dim = 1 →
  greater dim bound None w
  = (Ok (length (heap w)),
     with_heap w (heap w ++
       [filtered (λ i, bound ≤ i) dim (range (nx (self w))) (range (ny (self w)))])).
Proof.
  intros Hd. destruct w as [s k hp f].
  pose proof (greater_some (with_heap (mk_world s k hp f)
                (hp ++ [[range (nx s); range (ny s)]])) (length hp) _ _ dim bound
                (list_lookup_middle _ _ _ _ eq_refl) Hd) as Hs.
  unfold with_heap in *. cbn [heap self gmsh files] in *.
  rewrite insert_last in Hs. rewrite <- Hs. done.
Qed.

Lemma less_none w dim bound :
  dim = 0 ∨ dim = 1 →
  less dim bound None w
  = (Ok (length (heap w)),
     with_heap w (heap w ++
       [filtered (λ i, i ≤ bound) dim (range (nx (self w))) (range (ny (self w)))])).
Proof.
  intros Hd. destruct w as [s k hp f].
  pose proof (less_some (with_heap (mk_world s k hp f)
                (hp ++ [[range (nx s); range (ny s)]])) (length hp) _ _ dim bound
                (list_lookup_middle _ _ _ _ eq_refl) Hd) as Hs.
  unfold with_heap in *. cbn [heap self gmsh files] in *.
  rewrite insert_last in Hs. rewrite <- Hs. done.
Qed.

Lemma equal_none w dim bound :
  dim = 0 ∨ dim = 1 →
  equal dim bound None w
  = (Ok (length (heap w)),
     with_heap w (heap w ++
       [filtered (λ i, i = bound) dim (range (nx (self w))) (range (ny (self w)))])).
Proof.
  intros Hd. destruct w as [s k hp f].
  pose proof (equal_some (with_heap (mk_world s k hp f)
                (hp ++ [[range (nx s); range (ny s)]])) (length hp) _ _ dim bound
                (list_lookup_middle _ _ _ _ eq_refl) Hd) as Hs.
  unfold with_heap in *. cbn [heap self gmsh files] in *.
  rewrite insert_last in Hs. rewrite <- Hs. done.
Qed.

Lemma with_heap_insert w r sel sel' :
  heap w !! r = Some sel → updated_in_place w (with_heap w (<[r := sel']> (heap w))) r sel'.
Proof.
  intros Hr. unfold updated_in_place, with_heap. cbn.
  apply lookup_lt_Some in Hr as Hlt.
  repeat split.
  - by apply list_lookup_insert_eq.
  - apply length_insert.
  - intros r' Hne. by apply list_lookup_insert_ne.
Qed.

(** C10: called with an explicit selection, [greater], [less] and [equal]
    assign into the caller's list: its [dim] entry becomes the sub-array of
    the indices [>= bound], [<= bound], [== bound], its other entry stays,
    and the reference returned is the argument itself, no new list being
    made. *)
Theorem filters_mutate_in_place w r sx sy dim bound :
  heap w !! r = Some [sx; sy] → dim = 0 ∨ dim = 1 →
  (∃ w', greater dim bound (Some r) w = (Ok r, w') ∧
     updated_in_place w w' r
       (if decide (dim = 0) then [filter (λ i, bound ≤ i) sx; sy]
        else [sx; filter (λ i, bound ≤ i) sy])) ∧
  (∃ w', less dim bound (Some r) w = (Ok r, w') ∧
     updated_in_place w w' r
       (if decide (dim = 0) then [filter (λ i, i ≤ bound) sx; sy]
        else [sx; filter (λ i, i ≤ bound) sy])) ∧
  (∃ w', equal dim bound (Some r) w = (Ok r, w') ∧
     updated_in_place w w' r
       (if decide (dim = 0) then [filter (λ i, i = bound) sx; sy]
        else [sx; filter (λ i, i = bound) sy])).
Proof.
  intros Hr Hd. split; [|split]; eexists; (split;
    [first [by apply greater_some | by apply less_some | by apply equal_some]|]);
    eapply with_heap_insert; eauto.
Qed.

Lemma filters_mutate_in_place_witness :
  ∃ w', greater 0 1 (Some 0%nat) demo_selection = (Ok 0%nat, w') ∧
    heap w' = [[[1; 2]; [0; 1]]].
Proof.
  destruct (filters_mutate_in_place demo_selection 0 [0; 1; 2] [0; 1] 0 1)
    as [(w' & Hrun & Hup & Hlen & _) _]; [reflexivity | left; reflexivity |].
  exists w'. split; [exact Hrun|].
  destruct (heap w') as [|l [|? ?]]; cbn in Hlen, Hup; try discriminate.
  injection Hup as ->. reflexivity.
Defined.

(** ** SelectionAlgebra: [resolve] *)

Lemma resolve_run w r sf cx cy :
  surfaces (self w) = Some sf → heap w !! r = Some [cx; cy] →
  resolve r w = (np_getitem_arrays sf cx cy, w).
Proof.
  intros Hs Hr. unfold resolve, bind, attr, deref, lift. rewrite Hs, Hr. done.
Qed.

Lemma result_map_in (a : ndarray) (ps : list (Z * Z)) :
  Forall (λ p, 0 ≤ p.1 < (shape a).1 ∧ 0 ≤ p.2 < (shape a).2) ps →
  result_map (λ '(i, j), np_getitem a i j) ps = Ok (getd (data a) <$> ps).
Proof.
  induction 1 as [|[i j] ps [Hi Hj] _ IH]; [done|].
  cbn [result_map]. rewrite IH. destruct a as [[n m] d].
  rewrite np_getitem_in by done. done.
Qed.

Lemma broadcast_equal xs ys : length xs = length ys → broadcast xs ys = Ok (zip xs ys).
Proof. intros E. unfold broadcast. by rewrite E, Nat.eqb_refl. Qed.

Lemma broadcast_left c ys : broadcast [c] ys = Ok ((λ j, (c, j)) <$> ys).
Proof.
  unfold broadcast. destruct (Nat.eqb_spec (length [c]) (length ys)) as [E|]; [|done].
  destruct ys as [|j [|? ?]]; done.
Qed.

Lemma broadcast_right xs c : broadcast xs [c] = Ok ((λ i, (i, c)) <$> xs).
Proof.
  unfold broadcast. destruct (Nat.eqb_spec (length xs) (length [c])) as [E|].
  - destruct xs as [|i [|? ?]]; done.
  - destruct xs as [|i [|? ?]]; done.
Qed.

Lemma broadcast_mismatch xs ys :
  length xs ≠ length ys → length xs ≠ 1%nat → length ys ≠ 1%nat →
  broadcast xs ys = Raise IndexError.
Proof.
  intros Hne Hx Hy. unfold broadcast.
  destruct (Nat.eqb_spec (length xs) (length ys)); [done|].
  destruct xs as [|? [|? ?]], ys as [|? [|? ?]]; done.
Qed.

Lemma fmap_zip {A B C} (f : A * B → C) (l : list A) (k : list B) :
  f <$> zip l k = zip_with (λ a b, f (a, b)) l k.
Proof.
  revert k. induction l as [|a l IH]; intros [|b k]; cbn; try done.
  by rewrite <- IH.
Qed.

Lemma Forall_zip_both {A B} (P : A → Prop) (Q : B → Prop) (l : list A) (k : list B) :
  Forall P l → Forall Q k → Forall (λ p, P p.1 ∧ Q p.2) (zip l k).
Proof.
  intros Hl. revert k. induction Hl as [|a l Ha _ IH]; intros k Hk; [constructor|].
  destruct Hk as [|b k Hb Hk]; cbn; [constructor|].
  constructor; [done|]. by apply IH.
Qed.

(** C3: [resolve] pairs the two index arrays positionally, a length-one
    array being repeated along the other; each pair [(ix, iy)] gives
    [surfaces[ix, iy]], in the order of the arrays; otherwise unequal
    lengths make it fail.  With [selX = [c]] and [selY = [a..b]] the result
    is [surfaces[c, a], ..., surfaces[c, b]]. *)
Theorem resolve_pairs_positionally w r sf cx cy :
  surfaces (self w) = Some sf → heap w !! r = Some [cx; cy] →
  Forall (λ i, 0 ≤ i < (shape sf).1) cx → Forall (λ j, 0 ≤ j < (shape sf).2) cy →
  let surface := λ i j, getd (data sf) (i, j) in
  (∀ i j, 0 ≤ i < (shape sf).1 → 0 ≤ j < (shape sf).2 →
     np_getitem sf i j = Ok (surface i j)) ∧
  (length cx = length cy → resolve r w = (Ok (zip_with surface cx cy), w)) ∧
  (∀ c, cx = [c] → resolve r w = (Ok (surface c <$> cy), w)) ∧
  (∀ c, cy = [c] → resolve r w = (Ok ((λ i, surface i c) <$> cx), w)) ∧
  (length cx ≠ length cy → length cx ≠ 1%nat → length cy ≠ 1%nat →
     resolve r w = (Raise IndexError, w)) ∧
  (∀ c a b, cx = [c] → cy = seqZ a (b - a + 1) →
     resolve r w = (Ok (surface c <$> seqZ a (b - a + 1)), w)).
Proof.
  intros Hs Hr Hcx Hcy surface.
  rewrite (resolve_run w r sf cx cy Hs Hr). unfold np_getitem_arrays.
  assert (∀ c, cx = [c] →
            match broadcast cx cy with
            | Ok ps => result_map (λ '(i, j), np_getitem sf i j) ps
            | Raise e => Raise e
            end = Ok (surface c <$> cy)) as Hleft.
  { intros c ->. rewrite broadcast_left, result_map_in.
    - by rewrite <- list_fmap_compose.
    - apply Forall_fmap. eapply Forall_impl; [exact Hcy|]. cbn.
      intros j Hj. split; [|done]. by apply Forall_cons in Hcx as [Hc _]. }
  split; [|split; [|split; [|split; [|split]]]].
  - intros i j Hi Hj. destruct sf as [[n m] d]. cbn in Hi, Hj.
    by rewrite np_getitem_in.
  - intros Hlen. rewrite broadcast_equal by done.
    rewrite result_map_in
      by exact (Forall_zip_both (λ i, 0 ≤ i < (shape sf).1)
                  (λ j, 0 ≤ j < (shape sf).2) cx cy Hcx Hcy).
    by rewrite fmap_zip.
  - intros c E. rewrite (Hleft c E). done.
  - intros c ->. rewrite broadcast_right, result_map_in.
    + by rewrite <- list_fmap_compose.
    + apply Forall_fmap. eapply Forall_impl; [exact Hcx|]. cbn.
      intros i Hi. split; [done|]. by apply Forall_cons in Hcy as [Hc _].
  - intros Hne Hx Hy. by rewrite broadcast_mismatch.
  - intros c a b E ->. rewrite (Hleft c E). done.
Qed.

Lemma resolve_pairs_positionally_witness :
  resolve 0%nat demo_column = (Ok [2; 4], demo_column).
Proof.
  destruct (resolve_pairs_positionally demo_column 0
              (or_empty (surfaces (self demo_column))) [1] [0; 1])
    as (_ & _ & Hleft & _);
    [vm_compute; reflexivity | reflexivity
    | repeat constructor; vm_compute; congruence
    | repeat constructor; vm_compute; congruence | ].
  rewrite (Hleft 1 eq_refl). vm_compute. reflexivity.
Defined.

(** ** SelectionAlgebra: bounds out of range *)

Lemma filter_none_of {A} (P : A → Prop) `{!∀ a, Decision (P a)} (l : list A) :
  Forall (λ a, ¬ P a) l → filter P l = [].
Proof.
  induction 1 as [|a l Ha _ IH]; [done|]. by rewrite filter_cons_False.
Qed.

Lemma filter_all_of {A} (P : A → Prop) `{!∀ a, Decision (P a)} (l : list A) :
  Forall P l → filter P l = l.
Proof.
  induction 1 as [|a l Ha _ IH]; [done|]. rewrite filter_cons_True by done.
  by rewrite IH.
Qed.

Lemma filter_call_run (call : Z → Z → option nat → M nat) (P : Z → Z → Prop)
    `{!∀ b i, Decision (P b i)} :
  (∀ w r sx sy dim bound, heap w !! r = Some [sx; sy] → dim = 0 ∨ dim = 1 →
     call dim bound (Some r) w
     = (Ok r, with_heap w (<[r := filtered (P bound) dim sx sy]> (heap w)))) →
  (∀ w dim bound, dim = 0 ∨ dim = 1 →
     call dim bound None w
     = (Ok (length (heap w)),
        with_heap w (heap w ++
          [filtered (P bound) dim (range (nx (self w))) (range (ny (self w)))]))) →
  ∀ w selected sx sy dim bound,
    selection_of w selected = Some [sx; sy] → dim = 0 ∨ dim = 1 →
    ∃ r w', call dim bound selected w = (Ok r, w') ∧
      heap w' !! r = Some (filtered (P bound) dim sx sy).
Proof.
  intros Hsome Hnone w [r|] sx sy dim bound Hsel Hd; cbn in Hsel.
  - eexists _, _. split; [by apply Hsome|]. cbn.
    apply list_lookup_insert_eq. by eapply lookup_lt_Some.
  - injection Hsel as <- <-. eexists _, _. split; [by apply Hnone|]. cbn.
    by apply list_lookup_middle.
Qed.

(** C9 (as amended): on an axis whose indices lie in [0..n), [equal] with a
    bound outside [0..n), [greater] with a bound [>= n] and [less] with a
    bound [< 0] leave the empty array on that axis, [greater] with a bound
    [< 0] and [less] with a bound [>= n] leave the axis as it was, and
    none of them raises; [resolve] on two index arrays both longer than one
    and of different lengths raises [IndexError] and leaves the world as it
    was. *)
Theorem out_of_range_bounds w selected sx sy dim bound n :
  selection_of w selected = Some [sx; sy] → dim = 0 ∨ dim = 1 →
  Forall (λ i, 0 ≤ i < n) (if decide (dim = 0) then sx else sy) →
  bound < 0 ∨ n ≤ bound →
  let emptied := if decide (dim = 0) then [[]; sy] else [sx; []] in
  (∃ r w', equal dim bound selected w = (Ok r, w') ∧ heap w' !! r = Some emptied) ∧
  (∃ r w', greater dim bound selected w = (Ok r, w') ∧
     heap w' !! r = Some (if decide (n ≤ bound) then emptied else [sx; sy])) ∧
  (∃ r w', less dim bound selected w = (Ok r, w') ∧
     heap w' !! r = Some (if decide (bound < 0) then emptied else [sx; sy])) ∧
  (∀ coord cx cy, is_Some (surfaces (self w)) → heap w !! coord = Some [cx; cy] →
     (1 < length cx)%nat → (1 < length cy)%nat → length cx ≠ length cy →
     resolve coord w = (Raise IndexError, w)).
Proof.
  intros Hsel Hd Hax Hb emptied.
  assert (∀ (P : Z → Prop) `{!∀ i, Decision (P i)},
            Forall (λ i, ¬ P i) (if decide (dim = 0) then sx else sy) →
            filtered P dim sx sy = emptied) as Hempty.
  { intros P ? HP. unfold filtered, emptied.
    destruct (decide (dim = 0)); by rewrite filter_none_of. }
  assert (∀ (P : Z → Prop) `{!∀ i, Decision (P i)},
            Forall P (if decide (dim = 0) then sx else sy) →
            filtered P dim sx sy = [sx; sy]) as Hsame.
  { intros P ? HP. unfold filtered.
    destruct (decide (dim = 0)); by rewrite filter_all_of. }
  split; [|split; [|split]].
  - destruct (filter_call_run equal (λ b i, i = b) equal_some equal_none
                w selected sx sy dim bound Hsel Hd) as (r & w' & Hrun & Hh).
    exists r, w'. split; [done|]. rewrite Hh, Hempty; [done|].
    eapply Forall_impl; [exact Hax|]. cbn. lia.
  - destruct (filter_call_run greater (λ b i, b ≤ i) greater_some greater_none
                w selected sx sy dim bound Hsel Hd) as (r & w' & Hrun & Hh).
    exists r, w'. split; [done|]. rewrite Hh. destruct (decide (n ≤ bound)).
    + rewrite Hempty; [done|]. eapply Forall_impl; [exact Hax|]. cbn. lia.
    + rewrite Hsame; [done|]. eapply Forall_impl; [exact Hax|]. cbn. lia.
  - destruct (filter_call_run less (λ b i, i ≤ b) less_some less_none
                w selected sx sy dim bound Hsel Hd) as (r & w' & Hrun & Hh).
    exists r, w'. split; [done|]. rewrite Hh. destruct (decide (bound < 0)).
    + rewrite Hempty; [done|]. eapply Forall_impl; [exact Hax|]. cbn. lia.
    + rewrite Hsame; [done|]. eapply Forall_impl; [exact Hax|]. cbn. lia.
  - intros coord cx cy [sf Hs] Hr Hx Hy Hne.
    rewrite (resolve_run w coord sf cx cy Hs Hr). unfold np_getitem_arrays.
    rewrite broadcast_mismatch by lia. done.
Qed.

Lemma out_of_range_bounds_witness :
  ∃ r w', greater 0 2 None demo = (Ok r, w') ∧ heap w' !! r = Some [[]; [0; 1]].
Proof.
  destruct (out_of_range_bounds demo None [0; 1] [0; 1] 0 2 2)
    as (_ & (r & w' & Hrun & Hh) & _);
    [reflexivity | left; reflexivity | repeat constructor; vm_compute; congruence
    | right; vm_compute; congruence | ].
  exists r, w'. split; [exact Hrun|exact Hh].
Defined.

(** C9 as stated fails for [greater] below the range: the bound [-1] on
    the full selection of a 2x2 grid keeps every index. *)
Lemma greater_below_range_keeps_all :
  ∃ r w', greater 0 (-1) None demo = (Ok r, w') ∧
    heap w' !! r = Some [[0; 1]; [0; 1]] ∧ heap w' !! r ≠ Some [[]; [0; 1]].
Proof.
  eexists _, _. split; [reflexivity|]. split; [reflexivity|].
  vm_compute. discriminate.
Qed.

(** ** SelectionAlgebra: [join] and the partition law *)

Lemma Sorted_seqZ m n : Sorted Z.le (seqZ m n).
Proof.
  destruct (decide (n ≤ 0)) as [|Hn]; [by rewrite seqZ_nil|].
  rewrite <- (Z2Nat.id n) by lia. generalize (Z.to_nat n). clear. intros k.
  revert m. induction k as [|k IH]; intros m; [rewrite seqZ_nil by lia; constructor|].
  rewrite seqZ_cons by lia. rewrite Nat2Z.inj_succ, Z.pred_succ.
  constructor; [apply IH|].
  destruct k as [|k]; [rewrite seqZ_nil by lia; constructor|].
  rewrite seqZ_cons by lia. constructor. lia.
Qed.

Lemma sort_unique_range l n :
  (∀ i, i ∈ l ↔ 0 ≤ i < n) → np_sort (np_unique l) = range n.
Proof.
  intros Hl. unfold np_sort, np_unique, range.
  apply (Sorted_unique Z.le).
  - apply Sorted_merge_sort; apply _.
  - apply Sorted_seqZ.
  - rewrite !merge_sort_Permutation.
    apply NoDup_Permutation; [apply NoDup_remove_dups|apply NoDup_seqZ|].
    intros i. rewrite elem_of_remove_dups, elem_of_seqZ, Hl. lia.
Qed.

Lemma join_run w a b la lb :
  heap w !! a = Some la → heap w !! b = Some lb →
  join a b w
  = (Ok (length (heap w)),
     with_heap w (heap w ++ [zip_with (λ ai bi, np_sort (np_unique (ai ++ bi))) la lb])).
Proof.
  intros Ha Hb. unfold join, bind, deref, alloc. rewrite Ha, Hb. done.
Qed.

Lemma join_partition d b n m :
  d = 0 ∨ d = 1 →
  zip_with (λ ai bi, np_sort (np_unique (ai ++ bi)))
    (filtered (λ i, b ≤ i) d (range n) (range m))
    (filtered (λ i, i ≤ b - 1) d (range n) (range m))
  = [range n; range m].
Proof.
  intros [-> | ->]; unfold filtered;
    [rewrite !decide_True by done | rewrite !decide_False by done];
    cbn [zip_with]; repeat f_equal;
    apply sort_unique_range; intros i;
    rewrite elem_of_app, ?list_elem_of_filter; unfold range;
    rewrite elem_of_seqZ; lia.
Qed.

(** C5 (as amended): when each of [greater(d, b, .)] and [less(d, b - 1, .)]
    works on a full selection of its own (the argument omitted, or two
    different list objects holding the full ranges), their [join] holds the
    full range [0..n_d) on axis [d] and the full range on the other axis. *)
Theorem partition_law w d b :
  d = 0 ∨ d = 1 →
  let full := [range (nx (self w)); range (ny (self w))] in
  (∃ w', partition_call d b None None w = (Ok full, w')) ∧
  (∀ r1 r2, r1 ≠ r2 → heap w !! r1 = Some full → heap w !! r2 = Some full →
     ∃ w', partition_call d b (Some r1) (Some r2) w = (Ok full, w')).
Proof.
  intros Hd full. destruct w as [s k hp f]. cbn [self] in full. split.
  - unfold partition_call.
    erewrite bind_ok by (by apply greater_none). cbn beta.
    erewrite bind_ok by (by apply less_none). cbn beta.
    cbn [with_heap self gmsh heap files].
    erewrite bind_ok; cycle 1.
    { apply join_run; unfold with_heap; cbn [heap].
      - rewrite <- app_assoc. by apply list_lookup_middle.
      - apply list_lookup_middle. by rewrite length_app, Nat.add_1_r. }
    cbn beta. unfold deref, with_heap. cbn [heap].
    rewrite list_lookup_middle by done.
    rewrite join_partition by done. eauto.
  - intros r1 r2 Hne H1 H2. unfold partition_call. cbn [heap] in H1, H2.
    erewrite bind_ok by (by eapply greater_some). cbn beta.
    erewrite bind_ok; cycle 1.
    { eapply less_some; [|done]. cbn [with_heap heap].
      rewrite list_lookup_insert_ne by done. exact H2. }
    cbn beta. cbn [with_heap self gmsh heap files].
    erewrite bind_ok; cycle 1.
    { apply join_run; unfold with_heap; cbn [heap].
      - rewrite list_lookup_insert_ne by done.
        apply list_lookup_insert_eq. by eapply lookup_lt_Some.
      - apply list_lookup_insert_eq. rewrite length_insert. by eapply lookup_lt_Some. }
    cbn beta. unfold deref, with_heap. cbn [heap].
    rewrite list_lookup_middle by done.
    rewrite join_partition by done. eauto.
Qed.

Lemma partition_law_witness :
  ∃ w', partition_call 0 1 None None demo = (Ok [[0; 1]; [0; 1]], w').
Proof.
  destruct (partition_law demo 0 1) as [Hnone _]; [left; reflexivity|].
  exact Hnone.
Defined.

(** C5 as stated fails when one list object [S] holding the full selection
    is passed to both filters: [less] then filters what [greater] left in
    [S], and both arguments of [join] are that same emptied list. *)
Lemma partition_law_shared_selection :
  heap demo_shared !! 0%nat
    = Some [range (nx (self demo_shared)); range (ny (self demo_shared))] ∧
  (partition_call 0 1 (Some 0%nat) (Some 0%nat) demo_shared).1 = Ok [[]; [0; 1]] ∧
  (partition_call 0 1 (Some 0%nat) (Some 0%nat) demo_shared).1
    ≠ Ok [range (nx (self demo_shared)); range (ny (self demo_shared))].
Proof. vm_compute. repeat split; congruence. Qed.

(** ** AssemblyExporter *)

Lemma insert_by_key_Permutation p l : insert_by_key p l ≡ₚ p :: l.
Proof.
  induction l as [|q l IH]; [done|]. cbn.
  destruct (p.1 <=? q.1); [done|]. by rewrite IH, Permutation_swap.
Qed.

Lemma sorted_by_key_Permutation l : sorted_by_key l ≡ₚ l.
Proof.
  induction l as [|p l IH]; [done|]. cbn.
  by rewrite insert_by_key_Permutation, IH.
Qed.

Lemma insert_by_key_Sorted p l : Sorted key_le l → Sorted key_le (insert_by_key p l).
Proof.
  induction 1 as [|q l Hs IH Hhd]; cbn; [repeat constructor|].
  destruct (Z.leb_spec p.1 q.1).
  - constructor; [by constructor|]. by constructor.
  - constructor; [done|]. destruct Hhd as [|r l Hqr]; cbn.
    + constructor. unfold key_le. lia.
    + destruct (p.1 <=? r.1); constructor; unfold key_le in *; lia.
Qed.

Lemma sorted_by_key_Sorted l : Sorted key_le (sorted_by_key l).
Proof.
  induction l as [|p l IH]; [constructor|]. cbn. by apply insert_by_key_Sorted.
Qed.

(** The sort is stable: entries with the same key keep their order. *)
Lemma insert_by_key_stable k p l :
  filter (λ q, q.1 = k) (insert_by_key p l) = filter (λ q, q.1 = k) (p :: l).
Proof.
  induction l as [|q l IH]; [done|]. cbn [insert_by_key].
  destruct (Z.leb_spec p.1 q.1); [done|].
  rewrite filter_cons, IH, !filter_cons.
  destruct (decide (q.1 = k)), (decide (p.1 = k)); try done. lia.
Qed.

Lemma sorted_by_key_stable k l :
  filter (λ q, q.1 = k) (sorted_by_key l) = filter (λ q, q.1 = k) l.
Proof.
  induction l as [|p l IH]; [done|]. cbn [sorted_by_key foldr].
  rewrite insert_by_key_stable, !filter_cons. fold (sorted_by_key l).
  by rewrite IH.
Qed.

Lemma elem_of_flatten_groups gs sid gid :
  (sid, gid) ∈ flatten_groups gs ↔
  0 ≤ gid ∧ ∃ grp, gs !! Z.to_nat gid = Some grp ∧ sid ∈ entities grp.
Proof.
  unfold flatten_groups, enumerate. rewrite list_elem_of_bind. split.
  - intros ([i grp] & Hin & Hz). apply list_elem_of_fmap in Hin as (e & [= -> ->] & He).
    apply list_elem_of_lookup in Hz as (n & Hn).
    apply lookup_zip_with_Some in Hn as (i' & grp' & [= <- <-] & Hi & Hg).
    apply lookup_seqZ in Hi as [-> ?]. rewrite Z.add_0_l, Nat2Z.id.
    split; [lia|eauto].
  - intros (Hg & grp & Hl & He). exists (gid, grp). split.
    + apply list_elem_of_fmap. eauto.
    + apply list_elem_of_lookup. exists (Z.to_nat gid).
      apply lookup_zip_with_Some. exists gid, grp. split; [done|]. split; [|done].
      apply lookup_seqZ. apply lookup_lt_Some in Hl. lia.
Qed.

Lemma string_length_app s1 s2 :
  String.length (s1 +:+ s2) = (String.length s1 + String.length s2)%nat.
Proof. induction s1 as [|a s1 IH]; simpl; [done|]. by f_equal. Qed.

Lemma spaces_length k : String.length (spaces k) = k.
Proof. induction k as [|k IH]; cbn; [done|]. by rewrite IH. Qed.

Lemma ljust_length width s :
  String.length (ljust width s) = (width `max` String.length s)%nat.
Proof. unfold ljust. rewrite string_length_app, spaces_length. lia. Qed.

(** C8: the export writes, for the (surface, group) pairs of all groups
    sorted by surface id (stably), one line per pair: the surface id in
    decimal, padded on the right with spaces to five columns, one space,
    the group id plus one in decimal, and a newline. *)
Theorem export_sorted_lines w gs path :
  physical_groups (self w) = Some gs →
  ∃ pairs,
    export_assembly_materials path w
    = (Ok tt, mk_world (self w) (gmsh w) (heap w)
                (files w ++ [(path, String.concat "" (format_line <$> pairs))])) ∧
    pairs ≡ₚ flatten_groups gs ∧
    (∀ sid gid, (sid, gid) ∈ flatten_groups gs ↔
       0 ≤ gid ∧ ∃ grp, gs !! Z.to_nat gid = Some grp ∧ sid ∈ entities grp) ∧
    Sorted (λ p q, p.1 ≤ q.1) pairs ∧
    (∀ k, filter (λ q, q.1 = k) pairs = filter (λ q, q.1 = k) (flatten_groups gs)) ∧
    ∀ sid gid,
      format_line (sid, gid)
      = (pretty sid +:+ spaces (5 - String.length (pretty sid)))
          +:+ " " +:+ pretty (gid + 1) +:+ String (ascii_of_nat 10) "" ∧
      String.length (pretty sid +:+ spaces (5 - String.length (pretty sid)))
      = (5 `max` String.length (pretty sid))%nat.
Proof.
  intros Hgs. exists (sorted_by_key (flatten_groups gs)).
  split; [|split; [|split; [|split; [|split]]]].
  - unfold export_assembly_materials, bind, attr, write_file. rewrite Hgs. done.
  - apply sorted_by_key_Permutation.
  - intros sid gid. apply elem_of_flatten_groups.
  - apply sorted_by_key_Sorted.
  - intros k. apply sorted_by_key_stable.
  - intros sid gid. split; [done|]. apply (ljust_length 5).
Qed.

Lemma export_sorted_lines_witness :
  ∃ pairs, (export_assembly_materials None demo_groups).1 = Ok tt ∧
    pairs ≡ₚ [(2, 0); (3, 0); (1, 1); (4, 1)] ∧
    Sorted (λ p q, p.1 ≤ q.1) pairs.
Proof.
  destruct (export_sorted_lines demo_groups
              [mk_group "F1" [2; 3]; mk_group "F2" [1; 4]] None)
    as (pairs & Hrun & Hperm & _ & Hsorted & _); [vm_compute; reflexivity|].
  exists pairs. rewrite Hrun. split; [reflexivity|]. split; [exact Hperm|exact Hsorted].
Defined.

(** The export scenario of the 2x2 grid with matrix [[1, 2], [2, 1]]. *)
Example export_scenario :
  files (export_assembly_materials None demo_groups).2
  = [(None, "1     2" +:+ String (ascii_of_nat 10) ""
        +:+ "2     1" +:+ String (ascii_of_nat 10) ""
        +:+ "3     1" +:+ String (ascii_of_nat 10) ""
        +:+ "4     2" +:+ String (ascii_of_nat 10) "")].
Proof. vm_compute. reflexivity. Qed.

(** * Further properties of the code *)

(** ** [generate_nodes]: where the points are *)

Lemma generate_nodes_loop_points cs : ∀ s k h f n m d sz,
  nodes s = Some (mk_ndarray (n, m) d) → mesh_size s = Some sz →
  Forall (λ c, (0 ≤ c.1 < n ∧ 0 ≤ c.2 < m) ∧
               c.1 < Z.of_nat (length (x s)) ∧ c.2 < Z.of_nat (length (y s))) cs →
  for_each cs (λ c, generate_nodes_cell c.1 c.2) (mk_world s k h f)
  = (Ok tt,
     mk_world (set_nodes (mk_ndarray (n, m) (fill cs (max_point k) d)) s)
       (mk_kernel (max_point k + Z.of_nat (length cs)) (max_line k) (max_loop k)
          (max_surface k) (points k ++ tagged (max_point k) (node_point s sz <$> cs))
          (lines k) (curve_loops k) (plane_surfaces k) (phys_groups k)) h f).
Proof.
  induction cs as [|[ix iy] cs IH]; intros s k h f n m d sz Hn Hsz Hcs.
  - destruct s, k; simpl in *. subst.
    unfold ret. rewrite Z.add_0_r, app_nil_r. done.
  - apply Forall_cons in Hcs as [((Hx & Hy) & Hlx & Hly) Hcs]. simpl in Hx, Hy, Hlx, Hly.
    destruct (py_getitem_in (x s) ix) as (px & Lx & Epx); [lia|].
    destruct (py_getitem_in (y s) iy) as (py & Ly & Epy); [lia|].
    cbn [for_each].
    erewrite bind_ok by (eapply generate_nodes_cell_ok; eauto).
    cbn beta.
    etrans; [eapply (IH _ _ h f n m _ sz); [done|done|exact Hcs]|].
    cbn. rewrite <- app_assoc. cbn. unfold node_point at 2. cbn. rewrite Lx, Ly. cbn.
    do 3 f_equal. lia.
Qed.

Lemma generate_nodes_points s k h f sz :
  constructed s → mesh_size s = Some sz →
  let cs := row_major (nx s + 1) (ny s + 1) in
  generate_nodes (mk_world s k h f)
  = (Ok tt,
     mk_world (set_nodes (nodes_arr (nx s) (ny s) (max_point k)) s)
       (mk_kernel (max_point k + Z.of_nat (length cs)) (max_line k) (max_loop k)
          (max_surface k) (points k ++ tagged (max_point k) (node_point s sz <$> cs))
          (lines k) (curve_loops k) (plane_surfaces k) (phys_groups k)) h f).
Proof.
  intros [Hnx Hny] Hsz cs.
  unfold generate_nodes. run_cell. rewrite np_empty_ok by lia. cbn.
  rewrite for_each_row_major.
  erewrite generate_nodes_loop_points; [done | done | done |].
  apply Forall_row_major. cbn. lia.
Qed.

(** X1: [generate_nodes] creates, for every grid position [(ix, iy)] with
    [0 <= ix <= nx] and [0 <= iy <= ny], the point [(x[ix], y[iy], 0)] with
    the mesh size, and stores its tag in [nodes[ix, iy]]; nothing but the
    point table, its counter and [nodes] changes. *)
Theorem generate_nodes_places_points w sz :
  constructed (self w) → mesh_size (self w) = Some sz →
  ∃ w' nd new_points,
    generate_nodes w = (Ok tt, w') ∧
    self w' = set_nodes nd (self w) ∧
    points (gmsh w') = points (gmsh w) ++ new_points ∧
    Z.of_nat (length new_points) = (nx (self w) + 1) * (ny (self w) + 1) ∧
    lines (gmsh w') = lines (gmsh w) ∧ curve_loops (gmsh w') = curve_loops (gmsh w) ∧
    plane_surfaces (gmsh w') = plane_surfaces (gmsh w) ∧
    phys_groups (gmsh w') = phys_groups (gmsh w) ∧
    heap w' = heap w ∧ files w' = files w ∧
    ∀ ix iy, 0 ≤ ix ≤ nx (self w) → 0 ≤ iy ≤ ny (self w) →
      ∃ t px py,
        np_getitem nd ix iy = Ok t ∧
        py_getitem (x (self w)) ix = Ok px ∧ py_getitem (y (self w)) iy = Ok py ∧
        (t, (px, py, 0%Q, sz)) ∈ new_points.
Proof.
  destruct w as [s k h f]. cbn [self gmsh heap files]. intros Hc Hsz.
  pose proof (generate_nodes_points s k h f sz Hc Hsz) as Hrun. cbn zeta in Hrun.
  destruct Hc as [Hnx Hny].
  set (cs := row_major (nx s + 1) (ny s + 1)) in *.
  eexists _, (nodes_arr (nx s) (ny s) (max_point k)),
    (tagged (max_point k) (node_point s sz <$> cs)).
  split; [exact Hrun|]. cbn.
  rewrite tagged_length, length_fmap.
  assert (Z.of_nat (length cs) = (nx s + 1) * (ny s + 1)) as ->
    by (apply length_row_major_Z; lia).
  repeat split; try done.
  intros ix iy Hx Hy.
  destruct (np_getitem_fill (nx s + 1) (ny s + 1) cs (max_point k) ix iy)
    as (i & Hi & Et); [apply NoDup_row_major|apply elem_of_row_major; lia|lia|lia|].
  destruct (py_getitem_in (x s) ix) as (px & Lx & Epx); [lia|].
  destruct (py_getitem_in (y s) iy) as (py & Ly & Epy); [lia|].
  eexists _, px, py. split; [exact Et|]. split; [done|]. split; [done|].
  apply list_elem_of_lookup. exists i. apply tagged_lookup. split; [done|].
  rewrite list_lookup_fmap, Hi. cbn. unfold node_point. cbn. by rewrite Lx, Ly.
Qed.

Lemma generate_nodes_places_points_witness :
  ∃ w' t, generate_nodes (modify_self (set_mesh_size 1%Q) demo).2 = (Ok tt, w') ∧
    (t, (1%Q, 2%Q, 0%Q, 1%Q)) ∈ points (gmsh w').
Proof.
  destruct (generate_nodes_places_points (modify_self (set_mesh_size 1%Q) demo).2 1%Q)
    as (w' & nd & np & Hrun & _ & Hp & _ & _ & _ & _ & _ & _ & _ & Hcell);
    [split; reflexivity | reflexivity |].
  destruct (Hcell 1 2) as (t & px & py & _ & Ex & Ey & Hin);
    [vm_compute; split; discriminate | vm_compute; split; discriminate |].
  vm_compute in Ex, Ey. injection Ex as <-. injection Ey as <-.
  exists w', t. split; [exact Hrun|]. rewrite Hp. apply elem_of_app. by right.
Defined.

(** ** [generate_lines]: what the lines connect *)

(** X2: [generate_lines] makes [linex[ix, iy]] the line from
    [nodes[ix, iy]] to [nodes[ix+1, iy]] and [liney[ix, iy]] the line from
    [nodes[ix, iy]] to [nodes[ix, iy+1]], the x-lines first; all new line
    tags are distinct. *)
Theorem generate_lines_connects w nd :
  nodes (self w) = Some nd →
  shape nd = (nx (self w) + 1, ny (self w) + 1) →
  0 ≤ nx (self w) → 0 ≤ ny (self w) →
  ∃ w' lx ly x_lines y_lines,
    generate_lines w = (Ok tt, w') ∧
    linex (self w') = Some lx ∧ liney (self w') = Some ly ∧
    nodes (self w') = Some nd ∧
    lines (gmsh w') = lines (gmsh w) ++ x_lines ++ y_lines ∧
    points (gmsh w') = points (gmsh w) ∧
    NoDup (x_lines ++ y_lines).*1 ∧
    (∀ ix iy, 0 ≤ ix < nx (self w) → 0 ≤ iy ≤ ny (self w) →
       ∃ t a b, np_getitem lx ix iy = Ok t ∧ np_getitem nd ix iy = Ok a ∧
         np_getitem nd (ix + 1) iy = Ok b ∧ (t, (a, b)) ∈ x_lines) ∧
    (∀ ix iy, 0 ≤ ix ≤ nx (self w) → 0 ≤ iy < ny (self w) →
       ∃ t a b, np_getitem ly ix iy = Ok t ∧ np_getitem nd ix iy = Ok a ∧
         np_getitem nd ix (iy + 1) = Ok b ∧ (t, (a, b)) ∈ y_lines).
Proof.
  destruct w as [s k h f], nd as [[nn nm] dn]. cbn [self gmsh shape].
  intros Hn [= -> ->] Hnx Hny.
  pose proof (generate_lines_spec s k h f _ _ dn Hn Hnx Hny ltac:(lia) ltac:(lia)) as Hrun.
  cbn zeta in Hrun.
  set (xs := row_major (nx s) (ny s + 1)) in *.
  set (ys := col_major (nx s + 1) (ny s)) in *.
  eexists _, (linex_arr (nx s) (ny s) (max_line k)),
    (liney_arr (nx s) (ny s) (max_line k + Z.of_nat (length xs))),
    (tagged (max_line k) (x_edge dn <$> xs)),
    (tagged (max_line k + Z.of_nat (length xs)) (y_edge dn <$> ys)).
  split; [exact Hrun|]. cbn.
  split; [done|]. split; [done|]. split; [done|]. split; [done|]. split; [done|].
  split; [|split].
  - replace (max_line k + Z.of_nat (length xs))
      with (max_line k + Z.of_nat (length (x_edge dn <$> xs)))
      by (by rewrite length_fmap).
    rewrite <- tagged_app. apply tagged_NoDup.
  - intros ix iy Hx Hy.
    destruct (np_getitem_fill (nx s) (ny s + 1) xs (max_line k) ix iy)
      as (i & Hi & Et); [apply NoDup_row_major|apply elem_of_row_major; lia|lia|lia|].
    eexists _, _, _. split; [exact Et|]. rewrite !np_getitem_in by lia.
    split; [done|]. split; [done|].
    apply list_elem_of_lookup. exists i. apply tagged_lookup. split; [done|].
    rewrite list_lookup_fmap, Hi. done.
  - intros ix iy Hx Hy.
    destruct (np_getitem_fill (nx s + 1) (ny s) ys
                (max_line k + Z.of_nat (length xs)) ix iy)
      as (i & Hi & Et); [apply NoDup_col_major|apply elem_of_col_major; lia|lia|lia|].
    eexists _, _, _. split; [exact Et|]. rewrite !np_getitem_in by lia.
    split; [done|]. split; [done|].
    apply list_elem_of_lookup. exists i. apply tagged_lookup. split; [done|].
    rewrite list_lookup_fmap, Hi. done.
Qed.

Lemma generate_lines_connects_witness :
  ∃ w' t, generate_lines demo_nodes = (Ok tt, w') ∧
    (t, (1, 2)) ∈ lines (gmsh w').
Proof.
  destruct (generate_lines_connects demo_nodes (or_empty (nodes (self demo_nodes))))
    as (w' & lx & ly & xl & yl & Hrun & _ & _ & _ & Hl & _ & _ & Hx & _);
    [vm_compute; reflexivity | vm_compute; reflexivity
    | vm_compute; discriminate | vm_compute; discriminate |].
  destruct (Hx 0 0) as (t & a & b & Et & Ea & Eb & Hin);
    [vm_compute; split; [discriminate|reflexivity]
    | vm_compute; split; discriminate |].
  vm_compute in Ea, Eb. injection Ea as <-. injection Eb as <-.
  exists w', t. split; [exact Hrun|]. rewrite Hl, app_assoc. apply elem_of_app.
  left. apply elem_of_app. by right.
Defined.

(** ** The three generators together *)

Lemma build_run s k h f sz :
  constructed s → mesh_size s = Some sz → 0 ≤ nx s → 0 ≤ ny s →
  (generate_nodes ;;; generate_lines ;;; generate_surfaces) (mk_world s k h f)
  = (Ok tt, mk_world (built_mesh s k) (built_kernel s sz k) h f).
Proof.
  intros Hc Hsz Hnx Hny.
  erewrite bind_ok by (by apply generate_nodes_points). cbn beta.
  erewrite bind_ok; cycle 1.
  { eapply (generate_lines_spec _ _ h f (nx s + 1) (ny s + 1)); cbn;
      try reflexivity; lia. }
  cbn beta.
  etrans; [eapply generate_surfaces_spec; cbn; try reflexivity; lia|].
  done.
Qed.

Lemma fill_tagged {A} (pay : Z * Z → A) cs base c :
  NoDup cs → c ∈ cs →
  ∃ t, fill cs base ∅ !! c = Some t ∧ base < t ∧
       (t, pay c) ∈ tagged base (pay <$> cs).
Proof.
  intros Hnd Hin. destruct (fill_elem cs base ∅ c Hnd Hin) as (i & Hi & Hf).
  eexists. split; [exact Hf|]. split; [lia|].
  apply list_elem_of_lookup. exists i. apply tagged_lookup. split; [done|].
  by rewrite list_lookup_fmap, Hi.
Qed.

(** X3: after the three generators, on a kernel whose line tags are
    positive, the loop of every cell is a closed chain when its signed
    edges are followed in order: from node [(ix+1, iy)] up to
    [(ix+1, iy+1)], left to [(ix, iy+1)], down to [(ix, iy)] and right back
    to [(ix+1, iy)], that is counter-clockwise around the cell. *)
Theorem curve_loops_closed w sz :
  constructed (self w) → mesh_size (self w) = Some sz →
  0 ≤ nx (self w) → 0 ≤ ny (self w) → 0 ≤ max_line (gmsh w) →
  ∃ w' nd cv,
    (generate_nodes ;;; generate_lines ;;; generate_surfaces) w = (Ok tt, w') ∧
    nodes (self w') = Some nd ∧ curves (self w') = Some cv ∧
    ∀ ix iy, 0 ≤ ix < nx (self w) → 0 ≤ iy < ny (self w) →
      ∃ c e1 e2 e3 e4 n00 n10 n11 n01,
        np_getitem cv ix iy = Ok c ∧
        (c, [e1; e2; e3; e4]) ∈ curve_loops (gmsh w') ∧
        np_getitem nd ix iy = Ok n00 ∧ np_getitem nd (ix + 1) iy = Ok n10 ∧
        np_getitem nd (ix + 1) (iy + 1) = Ok n11 ∧
        np_getitem nd ix (iy + 1) = Ok n01 ∧
        runs (lines (gmsh w')) e1 n10 n11 ∧ runs (lines (gmsh w')) e2 n11 n01 ∧
        runs (lines (gmsh w')) e3 n01 n00 ∧ runs (lines (gmsh w')) e4 n00 n10.
Proof.
  destruct w as [s k h f]. cbn [self gmsh]. intros Hc Hsz Hnx Hny Hl.
  eexists _, _, _. split; [by apply (build_run s k h f sz)|].
  split; [reflexivity|]. split; [reflexivity|].
  intros ix iy Hx Hy. cbn [gmsh built_kernel lines curve_loops].
  set (ps := row_major (nx s + 1) (ny s + 1)).
  set (xs := row_major (nx s) (ny s + 1)).
  set (ys := col_major (nx s + 1) (ny s)).
  set (cs := row_major (nx s) (ny s)).
  set (dn := fill ps (max_point k) ∅).
  set (dx := fill xs (max_line k) ∅).
  set (dy := fill ys (max_line k + Z.of_nat (length xs)) ∅).
  destruct (fill_tagged (loop_edges dx dy) cs (max_loop k) (ix, iy))
    as (c & Hc' & _ & Hloop);
    [apply NoDup_row_major | apply elem_of_row_major; lia |].
  destruct (fill_tagged (x_edge dn) xs (max_line k) (ix, iy))
    as (b & Hb & Hbpos & Hbot);
    [apply NoDup_row_major | apply elem_of_row_major; lia |].
  destruct (fill_tagged (x_edge dn) xs (max_line k) (ix, iy + 1))
    as (t & Ht & Htpos & Htop);
    [apply NoDup_row_major | apply elem_of_row_major; lia |].
  destruct (fill_tagged (y_edge dn) ys (max_line k + Z.of_nat (length xs)) (ix, iy))
    as (l & Hl' & Hlpos & Hleft);
    [apply NoDup_col_major | apply elem_of_col_major; lia |].
  destruct (fill_tagged (y_edge dn) ys (max_line k + Z.of_nat (length xs)) (ix + 1, iy))
    as (r & Hr & Hrpos & Hright);
    [apply NoDup_col_major | apply elem_of_col_major; lia |].
  exists c, r, (- t), (- l), b,
    (getd dn (ix, iy)), (getd dn (ix + 1, iy)),
    (getd dn (ix + 1, iy + 1)), (getd dn (ix, iy + 1)).
  unfold nodes_arr, cells_arr. rewrite !np_getitem_in by lia.
  fold ps cs dn. rewrite Hc'. cbn [default from_option].
  assert (loop_edges dx dy (ix, iy) = [r; - t; - l; b]) as Eloop.
  { unfold loop_edges, getd. cbn [fst snd]. fold dx dy.
    unfold dx at 1 2, dy at 1 2. by rewrite Hr, Ht, Hl', Hb. }
  rewrite Eloop in Hloop.
  split; [done|]. split; [apply elem_of_app; by right|].
  split; [done|]. split; [done|]. split; [done|]. split; [done|].
  unfold runs. rewrite Z.opp_involutive, Z.opp_involutive.
  split; [|split; [|split]].
  - left. split; [lia|]. apply elem_of_app. right. apply elem_of_app. by right.
  - right. split; [lia|]. apply elem_of_app. right. apply elem_of_app. by left.
  - right. split; [lia|]. apply elem_of_app. right. apply elem_of_app. by right.
  - left. split; [lia|]. apply elem_of_app. right. apply elem_of_app. by left.
Qed.

Lemma curve_loops_closed_witness :
  ∃ w' e1 e2 e3 e4 n00 n10 n11 n01,
    (generate_nodes ;;; generate_lines ;;; generate_surfaces)
      (modify_self (set_mesh_size 1%Q) demo).2 = (Ok tt, w') ∧
    runs (lines (gmsh w')) e1 n10 n11 ∧ runs (lines (gmsh w')) e2 n11 n01 ∧
    runs (lines (gmsh w')) e3 n01 n00 ∧ runs (lines (gmsh w')) e4 n00 n10.
Proof.
  destruct (curve_loops_closed (modify_self (set_mesh_size 1%Q) demo).2 1%Q)
    as (w' & nd & cv & Hrun & _ & _ & Hcell);
    [split; reflexivity | reflexivity | vm_compute; discriminate
    | vm_compute; discriminate | vm_compute; discriminate |].
  destruct (Hcell 0 0)
    as (c & e1 & e2 & e3 & e4 & n00 & n10 & n11 & n01 & _ & _ & _ & _ & _ & _
        & R1 & R2 & R3 & R4);
    [vm_compute; split; [discriminate|reflexivity]
    | vm_compute; split; [discriminate|reflexivity] |].
  exists w', e1, e2, e3, e4, n00, n10, n11, n01. by repeat split.
Defined.

(** ** The numbering follows the order of the loops *)

Lemma lookup_bind_const {A B} (f : A → list B) (l : list A) (k i j : nat) a :
  (∀ a, length (f a) = k) → l !! i = Some a → (j < k)%nat →
  (l ≫= f) !! (i * k + j)%nat = f a !! j.
Proof.
  intros Hk. revert i. induction l as [|a0 l IH]; intros i Hi Hj; [done|].
  rewrite bind_cons. destruct i as [|i]; cbn in Hi.
  - simplify_eq. cbn. apply lookup_app_l. by rewrite Hk.
  - rewrite lookup_app_r by (rewrite Hk; lia). rewrite Hk.
    replace (S i * k + j - k)%nat with (i * k + j)%nat by lia. by apply IH.
Qed.

Lemma lookup_row_major n m ix iy :
  0 ≤ ix < n → 0 ≤ iy < m →
  row_major n m !! Z.to_nat (iy * n + ix) = Some (ix, iy).
Proof.
  intros Hx Hy. unfold row_major, range.
  replace (Z.to_nat (iy * n + ix))
    with (Z.to_nat iy * Z.to_nat n + Z.to_nat ix)%nat by nia.
  rewrite (lookup_bind_const _ _ (Z.to_nat n) _ _ iy).
  - replace (Z.to_nat ix) with (Z.to_nat ix * 1 + 0)%nat by lia.
    rewrite (lookup_bind_const _ _ 1%nat _ _ ix); [done|done| |lia].
    rewrite lookup_seqZ_lt by lia. f_equal. lia.
  - intros a. rewrite (length_bind_const _ _ 1%nat), length_seqZ; [lia|done].
  - rewrite lookup_seqZ_lt by lia. f_equal. lia.
  - lia.
Qed.

Lemma lookup_col_major n m ix iy :
  0 ≤ ix < n → 0 ≤ iy < m →
  col_major n m !! Z.to_nat (ix * m + iy) = Some (ix, iy).
Proof.
  intros Hx Hy. unfold col_major, range.
  replace (Z.to_nat (ix * m + iy))
    with (Z.to_nat ix * Z.to_nat m + Z.to_nat iy)%nat by nia.
  rewrite (lookup_bind_const _ _ (Z.to_nat m) _ _ ix).
  - replace (Z.to_nat iy) with (Z.to_nat iy * 1 + 0)%nat by lia.
    rewrite (lookup_bind_const _ _ 1%nat _ _ iy); [done|done| |lia].
    rewrite lookup_seqZ_lt by lia. f_equal. lia.
  - intros a. rewrite (length_bind_const _ _ 1%nat), length_seqZ; [lia|done].
  - rewrite lookup_seqZ_lt by lia. f_equal. lia.
  - lia.
Qed.

Lemma cells_arr_getitem n m base ix iy :
  0 ≤ ix < n → 0 ≤ iy < m →
  np_getitem (mk_ndarray (n, m) (fill (row_major n m) base ∅)) ix iy
  = Ok (base + 1 + (iy * n + ix)).
Proof.
  intros Hx Hy. rewrite np_getitem_in by done.
  rewrite (fill_lookup _ _ _ (Z.to_nat (iy * n + ix)) (ix, iy));
    [|apply NoDup_row_major|by apply lookup_row_major].
  cbn. f_equal. nia.
Qed.

Lemma col_arr_getitem n m base ix iy :
  0 ≤ ix < n → 0 ≤ iy < m →
  np_getitem (mk_ndarray (n, m) (fill (col_major n m) base ∅)) ix iy
  = Ok (base + 1 + (ix * m + iy)).
Proof.
  intros Hx Hy. rewrite np_getitem_in by done.
  rewrite (fill_lookup _ _ _ (Z.to_nat (ix * m + iy)) (ix, iy));
    [|apply NoDup_col_major|by apply lookup_col_major].
  cbn. f_equal. nia.
Qed.

(** X4: the tags count on from the kernel's counters in the order of the
    loops: nodes, x-lines, loops and surfaces row by row ([iy] outer, [ix]
    inner), y-lines after all x-lines and column by column. *)
Theorem tags_follow_loop_order w sz :
  constructed (self w) → mesh_size (self w) = Some sz →
  0 ≤ nx (self w) → 0 ≤ ny (self w) →
  let n := nx (self w) in
  let m := ny (self w) in
  ∃ w' nd lx ly cv sf,
    (generate_nodes ;;; generate_lines ;;; generate_surfaces) w = (Ok tt, w') ∧
    nodes (self w') = Some nd ∧ linex (self w') = Some lx ∧
    liney (self w') = Some ly ∧ curves (self w') = Some cv ∧
    surfaces (self w') = Some sf ∧
    (∀ ix iy, 0 ≤ ix ≤ n → 0 ≤ iy ≤ m →
       np_getitem nd ix iy = Ok (max_point (gmsh w) + 1 + (iy * (n + 1) + ix))) ∧
    (∀ ix iy, 0 ≤ ix < n → 0 ≤ iy ≤ m →
       np_getitem lx ix iy = Ok (max_line (gmsh w) + 1 + (iy * n + ix))) ∧
    (∀ ix iy, 0 ≤ ix ≤ n → 0 ≤ iy < m →
       np_getitem ly ix iy
       = Ok (max_line (gmsh w) + n * (m + 1) + 1 + (ix * m + iy))) ∧
    (∀ ix iy, 0 ≤ ix < n → 0 ≤ iy < m →
       np_getitem cv ix iy = Ok (max_loop (gmsh w) + 1 + (iy * n + ix)) ∧
       np_getitem sf ix iy = Ok (max_surface (gmsh w) + 1 + (iy * n + ix))).
Proof.
  destruct w as [s k h f]. cbn [self gmsh]. intros Hc Hsz Hnx Hny.
  eexists _, _, _, _, _, _. split; [by apply (build_run s k h f sz)|].
  do 5 (split; [reflexivity|]).
  unfold nodes_arr, linex_arr, liney_arr, cells_arr.
  rewrite length_row_major_Z by lia.
  split; [|split; [|split]].
  - intros ix iy Hx Hy. rewrite cells_arr_getitem by lia. done.
  - intros ix iy Hx Hy. rewrite cells_arr_getitem by lia. done.
  - intros ix iy Hx Hy. rewrite col_arr_getitem by lia. f_equal; lia.
  - intros ix iy Hx Hy. rewrite !cells_arr_getitem by lia. done.
Qed.

Lemma tags_follow_loop_order_witness :
  ∃ w' sf, (generate_nodes ;;; generate_lines ;;; generate_surfaces)
             (modify_self (set_mesh_size 1%Q) demo).2 = (Ok tt, w') ∧
    surfaces (self w') = Some sf ∧ np_getitem sf 1 1 = Ok 4.
Proof.
  destruct (tags_follow_loop_order (modify_self (set_mesh_size 1%Q) demo).2 1%Q)
    as (w' & nd & lx & ly & cv & sf & Hrun & _ & _ & _ & _ & Hsf & _ & _ & _ & Hc);
    [split; reflexivity | reflexivity | vm_compute; discriminate
    | vm_compute; discriminate |].
  exists w', sf. split; [exact Hrun|]. split; [exact Hsf|].
  destruct (Hc 1 1) as [_ E];
    [vm_compute; split; [discriminate|reflexivity]
    | vm_compute; split; [discriminate|reflexivity] |].
  exact E.
Defined.

(** ** Empty axes and calls out of order *)

Lemma for_each_nothing {A B} (l : list A) (inner : A → list B) (body : B → A → M unit) w :
  (∀ a, inner a = []) →
  for_each l (λ a, for_each (inner a) (λ b, body b a)) w = (Ok tt, w).
Proof.
  intros Hin. revert w. induction l as [|a l IH]; intros w; [done|].
  cbn [for_each]. unfold bind. rewrite Hin. cbn. apply IH.
Qed.

Lemma for_each_first_raises {A} (a : A) l body w e w' :
  body a w = (Raise e, w') → for_each (a :: l) body w = (Raise e, w').
Proof. intros Hb. cbn. by rewrite (bind_raise _ _ _ _ _ Hb). Qed.

Lemma range_cons n : 0 < n → range n = 0 :: seqZ 1 (n - 1).
Proof. intros. unfold range. by rewrite seqZ_cons by lia. Qed.

(** X5: with an empty coordinate list on either axis, [generate_nodes]
    succeeds without creating a point (even with no mesh size set), and
    [generate_lines] then raises [ValueError]: the array of lines along the
    empty axis would have a negative dimension.  The kernel is untouched. *)
Theorem empty_axis_raises_ValueError w :
  constructed (self w) → x (self w) = [] ∨ y (self w) = [] →
  ∃ w1 w2,
    generate_nodes w = (Ok tt, w1) ∧ gmsh w1 = gmsh w ∧
    generate_lines w1 = (Raise ValueError, w2) ∧ gmsh w2 = gmsh w.
Proof.
  destruct w as [s k h f]. cbn [self gmsh]. intros [Hnx Hny] Hempty.
  assert (generate_nodes (mk_world s k h f)
          = (Ok tt, mk_world (set_nodes (mk_ndarray (nx s + 1, ny s + 1) ∅) s) k h f)) as E1.
  { unfold generate_nodes. run_cell. rewrite np_empty_ok by lia. cbn.
    destruct Hempty as [Hx | Hy].
    - rewrite Hx in Hnx. cbn in Hnx.
      apply (for_each_nothing _ (λ _, range (nx s + 1))
               (λ ix iy, generate_nodes_cell ix iy)).
      intros _. by rewrite Hnx.
    - rewrite Hy in Hny. cbn in Hny.
      replace (range (ny s + 1)) with (@nil Z) by (by rewrite Hny). done. }
  destruct Hempty as [Hx | Hy]; [|destruct (decide (0 ≤ nx s)) as [Hpos|Hneg]];
    (eexists _, _; split; [exact E1|]; split; [done|]);
    unfold generate_lines; run_cell.
  - rewrite Hx in Hnx. cbn in Hnx.
    unfold np_empty at 1. replace (nx s <? 0) with true by lia.
    split; reflexivity.
  - rewrite Hy in Hny. cbn in Hny.
    rewrite np_empty_ok by lia. cbn.
      replace (range (ny s + 1)) with (@nil Z) by (by rewrite Hny). cbn.
      unfold np_empty. replace (nx s + 1 <? 0) with false by lia.
      replace (ny s <? 0) with true by lia. split; reflexivity.
  - unfold np_empty at 1. replace (nx s <? 0) with true by lia.
    split; reflexivity.
Qed.

Lemma empty_axis_raises_ValueError_witness :
  ((generate_nodes ;;; generate_lines) no_columns).1 = Raise ValueError ∧
  ((generate_nodes ;;; generate_lines) no_rows).1 = Raise ValueError.
Proof.
  split.
  - destruct (empty_axis_raises_ValueError no_columns) as (w1 & w2 & E1 & _ & E2 & _);
      [split; reflexivity | left; reflexivity |].
    rewrite (bind_ok _ _ _ _ _ E1), E2. reflexivity.
  - destruct (empty_axis_raises_ValueError no_rows) as (w1 & w2 & E1 & _ & E2 & _);
      [split; reflexivity | right; reflexivity |].
    rewrite (bind_ok _ _ _ _ _ E1), E2. reflexivity.
Defined.

(** X6: each generator needs what the stage before it set up.  On a grid
    with at least one cell, [generate_nodes] without a mesh size,
    [generate_lines] without [nodes] and [generate_surfaces] without
    [liney] raise [AttributeError] at the first pass through their loops,
    before anything is created in the kernel. *)
Theorem generators_need_previous_stage w :
  1 ≤ nx (self w) → 1 ≤ ny (self w) →
  (constructed (self w) → mesh_size (self w) = None →
     ∃ w', generate_nodes w = (Raise AttributeError, w') ∧ gmsh w' = gmsh w) ∧
  (nodes (self w) = None →
     ∃ w', generate_lines w = (Raise AttributeError, w') ∧ gmsh w' = gmsh w) ∧
  (liney (self w) = None →
     ∃ w', generate_surfaces w = (Raise AttributeError, w') ∧ gmsh w' = gmsh w).
Proof.
  destruct w as [s k h f]. cbn [self gmsh]. intros Hnx Hny. split; [|split].
  - intros [Cx Cy] Hsz. eexists. unfold generate_nodes. run_cell.
    rewrite np_empty_ok by lia. cbn.
    rewrite (range_cons (ny s + 1)), (range_cons (nx s + 1)) by lia.
    split.
    + apply for_each_first_raises. apply for_each_first_raises.
      unfold generate_nodes_cell. run_cell.
      destruct (py_getitem_in (x s) 0) as (px & _ & ->); [lia|].
      destruct (py_getitem_in (y s) 0) as (py & _ & ->); [lia|].
      cbn. rewrite Hsz. done.
    + done.
  - intros Hn. eexists. unfold generate_lines. run_cell.
    rewrite np_empty_ok by lia. cbn.
    rewrite (range_cons (ny s + 1)), (range_cons (nx s)) by lia.
    erewrite for_each_first_raises; cycle 1.
    { apply for_each_first_raises.
      unfold generate_lines_x. run_cell. rewrite Hn. done. }
    split; reflexivity.
  - intros Hl. eexists. unfold generate_surfaces. run_cell.
    rewrite np_empty_ok by lia. cbn.
    rewrite (range_cons (ny s)), (range_cons (nx s)) by lia.
    split.
    + apply for_each_first_raises. apply for_each_first_raises.
      unfold generate_surfaces_cell. run_cell. rewrite Hl. done.
    + done.
Qed.

Lemma generators_need_previous_stage_witness :
  (generate_nodes demo).1 = Raise AttributeError ∧
  (generate_lines demo).1 = Raise AttributeError ∧
  (generate_surfaces demo).1 = Raise AttributeError.
Proof.
  destruct (generators_need_previous_stage demo) as (H1 & H2 & H3);
    [vm_compute; discriminate | vm_compute; discriminate |].
  destruct H1 as (w1 & -> & _); [split; reflexivity | reflexivity |].
  destruct H2 as (w2 & -> & _); [reflexivity|].
  destruct H3 as (w3 & -> & _); [reflexivity|].
  done.
Defined.

(** ** [generate] *)

Lemma generate_unfold sz w :
  generate sz w
  = ((generate_nodes ;;; generate_lines ;;; generate_surfaces) ;;;
     generate_physical_groups) (modify_self (set_mesh_size sz) w).2.
Proof.
  unfold generate. unfold bind at 1. cbn [modify_self].
  unfold bind. destruct (generate_nodes _) as [[[]|e] w1]; [|done].
  destruct (generate_lines w1) as [[[]|e] w2]; [|done].
  destruct (generate_surfaces w2) as [[[]|e] w3]; done.
Qed.

(** X7: [generate] on a mesh built without a material matrix raises
    [RuntimeError] only after the whole topology has been built: the world
    it leaves is the one after [generate_nodes], [generate_lines] and
    [generate_surfaces], except that [n_matrial], the names and the groups
    were never set. *)
Theorem generate_without_materials sz w :
  constructed (self w) → 0 ≤ nx (self w) → 0 ≤ ny (self w) →
  _materials (self w) = None →
  ∃ w',
    generate sz w = (Raise (RuntimeError "Materials not found."), w') ∧
    (generate_nodes ;;; generate_lines ;;; generate_surfaces)
      (modify_self (set_mesh_size sz) w).2 = (Ok tt, w') ∧
    Z.of_nat (length (plane_surfaces (gmsh w')))
    = Z.of_nat (length (plane_surfaces (gmsh w))) + nx (self w) * ny (self w) ∧
    phys_groups (gmsh w') = phys_groups (gmsh w) ∧
    physical_groups (self w') = physical_groups (self w).
Proof.
  destruct w as [s k h f]. cbn [self gmsh]. intros Hc Hnx Hny Hm.
  rewrite generate_unfold. cbn [modify_self snd self gmsh heap files].
  pose proof (build_run (set_mesh_size sz s) k h f sz Hc eq_refl Hnx Hny) as Hb.
  eexists. split; [|split; [exact Hb|]].
  - erewrite bind_ok by exact Hb. unfold generate_physical_groups. run_cell.
    rewrite Hm. done.
  - cbn. rewrite length_app, tagged_length, !length_fmap, tagged_length.
    rewrite Nat2Z.inj_add, length_row_major_Z by done. done.
Qed.

Lemma generate_without_materials_witness :
  ∃ w', generate 1%Q demo_bare = (Raise (RuntimeError "Materials not found."), w') ∧
    length (plane_surfaces (gmsh w')) = 4%nat.
Proof.
  destruct (generate_without_materials 1%Q demo_bare)
    as (w' & Hrun & _ & Hlen & _);
    [split; reflexivity | vm_compute; discriminate | vm_compute; discriminate
    | reflexivity |].
  exists w'. split; [exact Hrun|].
  assert (nx (self demo_bare) * ny (self demo_bare) = 4) as E by reflexivity.
  rewrite E in Hlen. cbn in Hlen. lia.
Defined.

(** ** SelectionAlgebra: composing the filters *)

Lemma filtered_filtered (P1 P2 : Z → Prop)
    `{!∀ i, Decision (P1 i), !∀ i, Decision (P2 i)} dim sx sy (sel : list (list Z)) :
  dim = 0 ∨ dim = 1 → filtered P2 dim sx sy = sel →
  ∃ sx' sy', sel = [sx'; sy'] ∧
    filtered P1 dim sx' sy' = filtered (λ i, P1 i ∧ P2 i) dim sx sy.
Proof.
  intros [-> | ->] <-; unfold filtered;
    [rewrite !decide_True by done | rewrite !decide_False by done];
    eexists _, _; (split; [reflexivity|]); by rewrite list_filter_filter.
Qed.

(** X8: [greater(dim, lo, S)] followed by [less(dim, hi, S)] leaves in
    [S[dim]] exactly the indices [i] with [lo <= i <= hi], in their order,
    and the two filters can be applied in either order: both orders end in
    the same world. *)
Theorem greater_less_select_range w r sx sy dim lo hi :
  heap w !! r = Some [sx; sy] → dim = 0 ∨ dim = 1 →
  ∃ w',
    (a <- greater dim lo (Some r) ;; less dim hi (Some a)) w = (Ok r, w') ∧
    (a <- less dim hi (Some r) ;; greater dim lo (Some a)) w = (Ok r, w') ∧
    updated_in_place w w' r
      (if decide (dim = 0) then [filter (λ i, lo ≤ i ≤ hi) sx; sy]
       else [sx; filter (λ i, lo ≤ i ≤ hi) sy]).
Proof.
  intros Hr Hd.
  assert (∀ (P : Z → Prop) `{!∀ i, Decision (P i)},
            heap (with_heap w (<[r := filtered P dim sx sy]> (heap w))) !! r
            = Some (filtered P dim sx sy)) as Hlook.
  { intros P ?. cbn. apply list_lookup_insert_eq. by eapply lookup_lt_Some. }
  exists (with_heap w (<[r := filtered (λ i, lo ≤ i ≤ hi) dim sx sy]> (heap w))).
  split; [|split].
  - erewrite bind_ok by (by apply greater_some).
    destruct (filtered_filtered (λ i, i ≤ hi) (λ i, lo ≤ i) dim sx sy _ Hd eq_refl)
      as (sx' & sy' & E & Hf).
    assert (heap (with_heap w (<[r := filtered (λ i, lo ≤ i) dim sx sy]> (heap w))) !! r
            = Some [sx'; sy']) as Hl by (rewrite <- E; apply Hlook).
    cbn beta. rewrite (less_some _ r sx' sy' dim hi Hl Hd). f_equal.
    unfold with_heap. cbn. rewrite list_insert_insert_eq, Hf. do 3 f_equal.
    unfold filtered. destruct (decide (dim = 0)); f_equal; try f_equal;
      apply list_filter_iff; intros; lia.
  - erewrite bind_ok by (by apply less_some).
    destruct (filtered_filtered (λ i, lo ≤ i) (λ i, i ≤ hi) dim sx sy _ Hd eq_refl)
      as (sx' & sy' & E & Hf).
    assert (heap (with_heap w (<[r := filtered (λ i, i ≤ hi) dim sx sy]> (heap w))) !! r
            = Some [sx'; sy']) as Hl by (rewrite <- E; apply Hlook).
    cbn beta. rewrite (greater_some _ r sx' sy' dim lo Hl Hd). f_equal.
    unfold with_heap. cbn. rewrite list_insert_insert_eq, Hf. done.
  - eapply with_heap_insert; eauto.
Qed.

Lemma greater_less_select_range_witness :
  ∃ w', (a <- greater 0 1 (Some 0%nat) ;; less 0 1 (Some a)) demo_selection
        = (Ok 0%nat, w') ∧
    heap w' = [[[1]; [0; 1]]].
Proof.
  destruct (greater_less_select_range demo_selection 0 [0; 1; 2] [0; 1] 0 1 1)
    as (w' & Hrun & _ & Hup & Hlen & _); [reflexivity | left; reflexivity |].
  exists w'. split; [exact Hrun|].
  destruct (heap w') as [|l [|? ?]]; cbn in Hlen, Hup; try discriminate.
  injection Hup as ->. reflexivity.
Defined.

(** ** SelectionAlgebra: the axis argument *)

Lemma norm_index_out n i : i < - n ∨ n ≤ i → norm_index n i = None.
Proof.
  intros. unfold norm_index.
  destruct (Z.leb_spec 0 i), (Z.ltb_spec i n), (Z.leb_spec (- n) i),
    (Z.ltb_spec i 0); simpl; try lia; done.
Qed.

(** X9: the axis is a Python list index into the two-element selection:
    an axis outside [-2 .. 1] makes [greater], [less] and [equal] raise
    [IndexError] and leaves the selection as it was, and the axes [-1] and
    [-2] stand for [1] and [0]. *)
Theorem filters_axis_index w r sx sy bound :
  heap w !! r = Some [sx; sy] →
  (∀ dim, dim < -2 ∨ 2 ≤ dim →
     greater dim bound (Some r) w = (Raise IndexError, w) ∧
     less dim bound (Some r) w = (Raise IndexError, w) ∧
     equal dim bound (Some r) w = (Raise IndexError, w)) ∧
  (∀ dim, dim = 0 ∨ dim = 1 →
     greater (dim - 2) bound (Some r) w = greater dim bound (Some r) w ∧
     less (dim - 2) bound (Some r) w = less dim bound (Some r) w ∧
     equal (dim - 2) bound (Some r) w = equal dim bound (Some r) w).
Proof.
  intros Hr. split.
  - intros dim Hd. destruct w as [s k hp f]. cbn [heap] in Hr.
    unfold greater, less, equal, store_item, bind, ret, raise, deref, lift, py_getitem.
    cbn. rewrite Hr. cbn. rewrite norm_index_out by lia. done.
  - intros dim [-> | ->]; destruct w as [s k hp f]; cbn [heap] in Hr;
      unfold greater, less, equal, store_item, bind, ret, raise, deref, lift, py_getitem;
      cbn; rewrite Hr; cbn; rewrite ?Hr; done.
Qed.

Lemma filters_axis_index_witness :
  greater 2 0 (Some 0%nat) demo_selection = (Raise IndexError, demo_selection) ∧
  (greater (-1) 1 (Some 0%nat) demo_selection).1 = Ok 0%nat.
Proof.
  destruct (filters_axis_index demo_selection 0 [0; 1; 2] [0; 1] 0) as [Hout _];
    [reflexivity|].
  destruct (Hout 2) as (E & _ & _); [right; reflexivity|].
  destruct (filters_axis_index demo_selection 0 [0; 1; 2] [0; 1] 1) as [_ Hneg];
    [reflexivity|].
  destruct (Hneg 1) as (E' & _ & _); [right; reflexivity|].
  split; [exact E|]. change (-1) with (1 - 2). rewrite E'. reflexivity.
Defined.

(** ** The queries of the module's script *)

Lemma filter_seqZ_between n lo hi :
  0 ≤ lo → lo ≤ hi → hi < n →
  filter (λ i, lo ≤ i ≤ hi) (seqZ 0 n) = seqZ lo (hi - lo + 1).
Proof.
  intros Hlo Hle Hhi.
  replace n with (lo + ((hi - lo + 1) + (n - hi - 1))) by lia.
  rewrite seqZ_app, seqZ_app by lia. rewrite !filter_app.
  rewrite (filter_none_of _ (seqZ 0 lo)) by (apply Forall_seqZ; lia).
  rewrite (filter_all_of _ (seqZ (0 + lo) _)) by (apply Forall_seqZ; lia).
  rewrite filter_none_of by (apply Forall_seqZ; lia).
  cbn. by rewrite app_nil_r.
Qed.

Lemma filter_seqZ_eq n c : 0 ≤ c < n → filter (λ i, i = c) (seqZ 0 n) = [c].
Proof.
  intros Hc. rewrite (list_filter_iff _ (λ i, c ≤ i ≤ c)) by (intros; lia).
  rewrite filter_seqZ_between by lia. replace (c - c + 1) with 1 by lia.
  rewrite seqZ_cons by lia. by rewrite seqZ_nil by lia.
Qed.

(** X10: on a mesh whose surfaces exist, the chain
    [equal(0, c)], [greater(1, lo, .)], [less(1, hi, .)], [resolve] of the
    module's script returns the surfaces of column [c] in the rows
    [lo .. hi], bottom to top; with the axes exchanged it returns the
    surfaces of row [c] in the columns [lo .. hi], left to right.  The mesh
    and the kernel are not touched. *)
Theorem script_queries w sf c lo hi :
  surfaces (self w) = Some sf → shape sf = (nx (self w), ny (self w)) →
  0 ≤ lo → lo ≤ hi →
  (0 ≤ c < nx (self w) → hi < ny (self w) →
     ∃ w', column_query c lo hi w
           = (Ok ((λ j, getd (data sf) (c, j)) <$> seqZ lo (hi - lo + 1)), w') ∧
       self w' = self w ∧ gmsh w' = gmsh w) ∧
  (0 ≤ c < ny (self w) → hi < nx (self w) →
     ∃ w', row_query c lo hi w
           = (Ok ((λ i, getd (data sf) (i, c)) <$> seqZ lo (hi - lo + 1)), w') ∧
       self w' = self w ∧ gmsh w' = gmsh w).
Proof.
  destruct w as [s k hp f], sf as [[n m] d]. cbn [self gmsh shape data].
  intros Hs [= -> ->] Hlo Hle. split.
  - intros Hc Hhi. unfold column_query.
    erewrite bind_ok by (apply equal_none; by left). cbn beta.
    unfold with_heap at 1, filtered at 1. rewrite decide_True by done.
    cbn [self heap gmsh files]. unfold range at 1. rewrite filter_seqZ_eq by done.
    erewrite bind_ok; cycle 1.
    { apply greater_some; [|by right]. cbn [heap]. by apply list_lookup_middle. }
    cbn beta. unfold with_heap at 1, filtered at 1. rewrite decide_False by done.
    cbn [self heap gmsh files]. rewrite insert_last.
    erewrite bind_ok; cycle 1.
    { apply less_some; [|by right]. cbn [heap]. by apply list_lookup_middle. }
    cbn beta. unfold with_heap at 1, filtered at 1. rewrite decide_False by done.
    cbn [self heap gmsh files]. rewrite insert_last.
    rewrite list_filter_filter.
    rewrite (list_filter_iff _ (λ i, lo ≤ i ≤ hi)) by (intros; lia).
    unfold range. rewrite filter_seqZ_between by lia.
    erewrite resolve_run; [|exact Hs|cbn [heap]; by apply list_lookup_middle].
    assert (np_getitem_arrays (mk_ndarray (nx s, ny s) d) [c] (seqZ lo (hi - lo + 1))
            = Ok ((λ j, getd d (c, j)) <$> seqZ lo (hi - lo + 1))) as ->.
    { unfold np_getitem_arrays. rewrite broadcast_left, result_map_in.
      - by rewrite <- list_fmap_compose.
      - apply Forall_fmap, Forall_seqZ. cbn. lia. }
    eexists. split; [reflexivity|done].
  - intros Hc Hhi. unfold row_query.
    erewrite bind_ok by (apply equal_none; by right). cbn beta.
    unfold with_heap at 1, filtered at 1. rewrite decide_False by done.
    cbn [self heap gmsh files]. unfold range at 2. rewrite filter_seqZ_eq by done.
    erewrite bind_ok; cycle 1.
    { apply greater_some; [|by left]. cbn [heap]. by apply list_lookup_middle. }
    cbn beta. unfold with_heap at 1, filtered at 1. rewrite decide_True by done.
    cbn [self heap gmsh files]. rewrite insert_last.
    erewrite bind_ok; cycle 1.
    { apply less_some; [|by left]. cbn [heap]. by apply list_lookup_middle. }
    cbn beta. unfold with_heap at 1, filtered at 1. rewrite decide_True by done.
    cbn [self heap gmsh files]. rewrite insert_last.
    rewrite list_filter_filter.
    rewrite (list_filter_iff _ (λ i, lo ≤ i ≤ hi)) by (intros; lia).
    unfold range. rewrite filter_seqZ_between by lia.
    erewrite resolve_run; [|exact Hs|cbn [heap]; by apply list_lookup_middle].
    assert (np_getitem_arrays (mk_ndarray (nx s, ny s) d) (seqZ lo (hi - lo + 1)) [c]
            = Ok ((λ i, getd d (i, c)) <$> seqZ lo (hi - lo + 1))) as ->.
    { unfold np_getitem_arrays. rewrite broadcast_right, result_map_in.
      - by rewrite <- list_fmap_compose.
      - apply Forall_fmap, Forall_seqZ. cbn. lia. }
    eexists. split; [reflexivity|done].
Qed.

Lemma script_queries_witness :
  (column_query 1 0 1 demo_groups).1 = Ok [2; 4] ∧
  (row_query 1 0 1 demo_groups).1 = Ok [3; 4].
Proof.
  destruct (script_queries demo_groups (or_empty (surfaces (self demo_groups))) 1 0 1)
    as [Hcol Hrow];
    [vm_compute; reflexivity | vm_compute; reflexivity
    | vm_compute; discriminate | vm_compute; discriminate |].
  destruct Hcol as (w1 & -> & _);
    [vm_compute; split; [discriminate|reflexivity] | vm_compute; reflexivity |].
  destruct Hrow as (w2 & -> & _);
    [vm_compute; split; [discriminate|reflexivity] | vm_compute; reflexivity |].
  split; vm_compute; reflexivity.
Defined.

(** ** SelectionAlgebra: [join] *)

Lemma NoDup_StronglySorted_lt (l : list Z) :
  StronglySorted Z.le l → NoDup l → StronglySorted Z.lt l.
Proof.
  induction 1 as [|a l Hs IH Ha]; intros Hnd; [constructor|].
  apply NoDup_cons in Hnd as [Hnotin Hnd]. constructor; [by apply IH|].
  apply Forall_forall. intros b Hb.
  assert (a ≤ b) by (by eapply Forall_forall in Ha).
  assert (a ≠ b) by (intros ->; done). lia.
Qed.

Lemma np_sort_unique_elem l i : i ∈ np_sort (np_unique l) ↔ i ∈ l.
Proof.
  unfold np_sort, np_unique.
  rewrite !merge_sort_Permutation. apply elem_of_remove_dups.
Qed.

Lemma np_sort_unique_sorted l : StronglySorted Z.lt (np_sort (np_unique l)).
Proof.
  apply NoDup_StronglySorted_lt.
  - unfold np_sort. apply StronglySorted_merge_sort; apply _.
  - unfold np_sort, np_unique. rewrite !merge_sort_Permutation.
    apply NoDup_remove_dups.
Qed.

Lemma np_sort_unique_ext l l' :
  (∀ i, i ∈ l ↔ i ∈ l') → np_sort (np_unique l) = np_sort (np_unique l').
Proof.
  intros Hl. apply (Sorted_unique Z.le).
  - apply Sorted_merge_sort; apply _.
  - apply Sorted_merge_sort; apply _.
  - unfold np_sort, np_unique. rewrite !merge_sort_Permutation.
    apply NoDup_Permutation; [apply NoDup_remove_dups..|].
    intros i. by rewrite !elem_of_remove_dups.
Qed.

(** X11: [join(a, b)] builds a new list and leaves [a] and [b] (which may
    be the same list) as they were; each axis of the result is strictly
    increasing and holds exactly the indices that occur in [a] or in [b] on
    that axis, and [join(b, a)] gives the same arrays. *)
Theorem join_is_sorted_union w a b ax ay bx by_ :
  heap w !! a = Some [ax; ay] → heap w !! b = Some [bx; by_] →
  ∃ cx cy,
    join a b w = (Ok (length (heap w)), with_heap w (heap w ++ [[cx; cy]])) ∧
    join b a w = join a b w ∧
    StronglySorted Z.lt cx ∧ StronglySorted Z.lt cy ∧
    (∀ i, i ∈ cx ↔ i ∈ ax ∨ i ∈ bx) ∧ (∀ i, i ∈ cy ↔ i ∈ ay ∨ i ∈ by_).
Proof.
  intros Ha Hb.
  exists (np_sort (np_unique (ax ++ bx))), (np_sort (np_unique (ay ++ by_))).
  rewrite (join_run w a b _ _ Ha Hb), (join_run w b a _ _ Hb Ha). cbn [zip_with].
  split; [done|]. split.
  - rewrite (np_sort_unique_ext (bx ++ ax) (ax ++ bx)),
      (np_sort_unique_ext (by_ ++ ay) (ay ++ by_)); [done|..];
      intros i; rewrite !elem_of_app; tauto.
  - repeat split; try apply np_sort_unique_sorted;
      rewrite np_sort_unique_elem, elem_of_app; tauto.
Qed.

Lemma join_is_sorted_union_witness :
  ∃ w', join 0%nat 1%nat demo_two_selections = (Ok 2%nat, w') ∧
    heap w' = [[[2; 0]; [1]]; [[0; 1]; [1; 0]]; [[0; 1; 2]; [0; 1]]].
Proof.
  destruct (join_is_sorted_union demo_two_selections 0 1 [2; 0] [1] [0; 1] [1; 0])
    as (cx & cy & Hrun & _); [reflexivity | reflexivity |].
  eexists. split; [exact Hrun|].
  assert ((join 0%nat 1%nat demo_two_selections).2
          = with_heap demo_two_selections (heap demo_two_selections ++ [[cx; cy]])) as E
    by (by rewrite Hrun).
  apply (f_equal heap) in E. cbn [heap with_heap] in E. rewrite <- E.
  vm_compute. reflexivity.
Defined.

(** ** SelectionAlgebra: [resolve] out of bounds *)

Lemma result_map_raise (a : ndarray) (ps : list (Z * Z)) i j :
  (i, j) ∈ ps → np_getitem a i j = Raise IndexError →
  result_map (λ '(i, j), np_getitem a i j) ps = Raise IndexError.
Proof.
  intros Hin Hr. induction ps as [|[i' j'] ps IH]; [by apply elem_of_nil in Hin|].
  cbn [result_map].
  assert (np_getitem a i' j' = Raise IndexError ∨ ∃ t, np_getitem a i' j' = Ok t)
    as [E | [t E]].
  { unfold np_getitem. repeat case_match; eauto. }
  - by rewrite E.
  - apply elem_of_cons in Hin as [[= -> ->]|Hin]; [congruence|].
    by rewrite E, IH.
Qed.

(** X12: [resolve] raises [IndexError], and changes nothing, as soon as
    one of the paired indices lies outside the surface array, that is
    outside [-nx .. nx-1] on axis 0 or outside [-ny .. ny-1] on axis 1. *)
Theorem resolve_out_of_bounds w r sf cx cy i j :
  surfaces (self w) = Some sf → heap w !! r = Some [cx; cy] →
  length cx = length cy → (i, j) ∈ zip cx cy →
  (i < - (shape sf).1 ∨ (shape sf).1 ≤ i) ∨ (j < - (shape sf).2 ∨ (shape sf).2 ≤ j) →
  resolve r w = (Raise IndexError, w).
Proof.
  intros Hs Hr Hlen Hin Hout. rewrite (resolve_run w r sf cx cy Hs Hr).
  unfold np_getitem_arrays. rewrite broadcast_equal by done.
  rewrite (result_map_raise sf _ i j Hin); [done|].
  unfold np_getitem. destruct Hout as [Hi|Hj].
  - by rewrite (norm_index_out _ i Hi).
  - rewrite (norm_index_out _ j Hj). by destruct (norm_index _ i).
Qed.

Lemma resolve_out_of_bounds_witness :
  resolve 0%nat (alloc [[0; 2]; [0; 1]] demo_groups).2
  = (Raise IndexError, (alloc [[0; 2]; [0; 1]] demo_groups).2).
Proof.
  apply (resolve_out_of_bounds _ 0 (or_empty (surfaces (self demo_groups)))
           [0; 2] [0; 1] 2 1);
    [vm_compute; reflexivity | reflexivity | reflexivity
    | right; left | left; right; vm_compute; discriminate].
Defined.

(** ** [generate_physical_groups]: what it leaves alone *)

Lemma assign_cell_frame ix iy w r w' :
  assign_cell ix iy w = (r, w') →
  geometry w' = geometry w ∧ phys_groups (gmsh w') = phys_groups (gmsh w) ∧
  _materials (self w') = _materials (self w).
Proof.
  unfold assign_cell, bind, not_none, get_self, lift, attr, modify_self,
    np_getitem, matrix_getitem, py_getitem, groups_append.
  intros H. repeat case_match; simplify_eq/=; done.
Qed.

(** X13: whatever its outcome, [generate_physical_groups] leaves the grid,
    the tag arrays, the kernel's points, lines, loops and surfaces, the
    heap and the files as they were; physical groups reach the kernel only
    when the call succeeds. *)
Theorem physical_groups_frame w r w' :
  generate_physical_groups w = (r, w') →
  geometry w' = geometry w ∧ _materials (self w') = _materials (self w) ∧
  ∃ new, phys_groups (gmsh w') = phys_groups (gmsh w) ++ new ∧
         (r ≠ Ok tt → new = []).
Proof.
  intros Hrun.
  set (P := λ v : world, geometry v = geometry w ∧
                         phys_groups (gmsh v) = phys_groups (gmsh w) ∧
                         _materials (self v) = _materials (self w)).
  assert (∀ l1 l2 v r1 v1, P v →
            for_each l1 (λ iy, for_each l2 (λ ix, assign_cell ix iy)) v = (r1, v1) →
            P v1) as Hloop.
  { intros l1 l2. apply for_each_preserves. intros iy va ra vb Ha.
    apply for_each_preserves; [|exact Ha].
    intros ix vc rc vd (G & K & Mm) Hc.
    apply assign_cell_frame in Hc as (G' & K' & Mm'). unfold P. by rewrite G', K', Mm'. }
  revert Hrun. unfold generate_physical_groups.
  unfold bind at 1, get_self at 1.
  destruct (_materials (self w)) as [mats|] eqn:Hm.
  2:{ unfold raise. intros [= <- <-]. split; [done|]. split; [done|].
      exists []. by rewrite app_nil_r. }
  unfold bind at 1, modify_self at 1. unfold bind at 1, get_self at 1. cbn [self].
  match goal with |- context [bind ?m _ ?w0] =>
    assert (∃ w1, m w0 = (Ok tt, w1) ∧ P w1) as (w1 & E & HP1) end.
  { cbn. destruct (_material_names (self w)); unfold ret; cbn.
    - eexists. split; [done|]. by repeat split.
    - run_cell. eexists. split; [done|]. by repeat split. }
  rewrite (bind_ok _ _ _ _ _ E).
  unfold bind at 1, not_none at 1. destruct (_material_names (self w1)).
  2:{ intros [= <- <-]. destruct HP1 as (G & K & Mm). try rewrite Hm in Mm.
      split; [done|]. split; [done|]. exists []. rewrite app_nil_r, K. done. }
  unfold bind at 1, modify_self at 1. unfold bind at 1, get_self at 1. cbn [self].
  unfold bind at 1.
  match goal with |- context [for_each ?l ?b ?w0] =>
    destruct (for_each l b w0) as [[[]|e] w2] eqn:Eloop;
    apply Hloop in Eloop as (G & K & Mm);
      [| destruct HP1 as (G1 & K1 & M1); by repeat split
       | | destruct HP1 as (G1 & K1 & M1); by repeat split] end.
  - run_cell. destruct (physical_groups (self w2)) as [gs|].
    + destruct w2 as [s2 k2 h2 f2]. rewrite register_loop. intros [= <- <-].
      try rewrite Hm in Mm. split; [exact G|]. split; [exact Mm|].
      eexists. cbn. cbn in K. rewrite K. split; [done|]. done.
    + intros [= <- <-]. try rewrite Hm in Mm. split; [done|]. split; [done|].
      exists []. rewrite app_nil_r. done.
  - intros [= <- <-]. try rewrite Hm in Mm. split; [done|]. split; [done|].
    exists []. rewrite app_nil_r. done.
Qed.

Lemma physical_groups_frame_witness :
  nodes (self (generate_physical_groups demo_built).2) = nodes (self demo_built) ∧
  lines (gmsh (generate_physical_groups demo_built).2) = lines (gmsh demo_built).
Proof.
  assert (∀ w r w', generate_physical_groups w = (r, w') →
            nodes (self w') = nodes (self w) ∧ lines (gmsh w') = lines (gmsh w)) as Hgen.
  { intros w r w' Hrun. destruct (physical_groups_frame w r w' Hrun) as (G & _).
    unfold geometry in G. by simplify_eq. }
  apply (Hgen demo_built (generate_physical_groups demo_built).1).
  by destruct (generate_physical_groups demo_built).
Defined.

(** ** [generate_physical_groups]: ids that are not in [1..k] *)

Lemma norm_index_Some n i :
  0 ≤ n → is_Some (norm_index n i) ↔ - n ≤ i < n.
Proof.
  intros Hn. unfold norm_index.
  destruct (Z.leb_spec 0 i), (Z.ltb_spec i n), (Z.leb_spec (- n) i),
    (Z.ltb_spec i 0); simpl; split; intros Hi; try lia; eauto;
    by destruct Hi.
Qed.

Lemma cell_group_None mats m k c :
  cell_group mats m k c = None ↔
  matrix_getitem mats (m - 1 - c.2) c.1 = Raise IndexError ∨
  ∃ v, matrix_getitem mats (m - 1 - c.2) c.1 = Ok v ∧
       (v - 1 < - Z.of_nat k ∨ Z.of_nat k ≤ v - 1).
Proof.
  unfold cell_group.
  destruct (matrix_getitem_cases mats (m - 1 - c.2) c.1) as [[v ->]| ->].
  - pose proof (norm_index_Some (Z.of_nat k) (v - 1) ltac:(lia)) as Hs.
    destruct (norm_index (Z.of_nat k) (v - 1)) as [i|] eqn:E; cbn.
    + split; [done|]. intros [?|(v' & [= <-] & Hv)]; [done|].
      assert (is_Some (Some i)) as Hi by eauto. apply Hs in Hi. lia.
    + split; [|done]. intros _. right. exists v. split; [done|].
      destruct (decide (- Z.of_nat k ≤ v - 1 < Z.of_nat k)) as [Hin|]; [|lia].
      apply Hs in Hin. by destruct Hin.
  - split; [by left|done].
Qed.

Lemma assign_None mats m ds cs : ∀ gs,
  assign mats m ds cs gs = None ↔
  Exists (λ c, cell_group mats m (length gs) c = None) cs.
Proof.
  induction cs as [|c cs IH]; intros gs; cbn.
  - split; [done|]. by intros ?%Exists_nil.
  - rewrite Exists_cons. destruct (cell_group mats m (length gs) c) as [g|] eqn:E.
    + rewrite IH, length_alter. split; [by right|]. by intros [?|?].
    + split; [by left|done].
Qed.

(** X14: with the matrix and the surfaces in place,
    [generate_physical_groups] either succeeds or raises [IndexError], and
    it raises exactly when some cell [(ix, iy)] is not covered by the
    matrix (row [ny-1-iy] or column [ix] out of its range) or carries an id
    [v] with [v - 1] outside [-k .. k-1], [k] being the number of names in
    force.  Nothing is registered in the kernel in that case. *)
Theorem physical_groups_index_error w mats sf :
  _materials (self w) = Some mats → surfaces (self w) = Some sf →
  shape sf = (nx (self w), ny (self w)) →
  let k := Z.of_nat (length (effective_names (self w) mats)) in
  let bad := ∃ ix iy, (0 ≤ ix < nx (self w) ∧ 0 ≤ iy < ny (self w)) ∧
      (matrix_getitem mats (ny (self w) - 1 - iy) ix = Raise IndexError ∨
       ∃ v, matrix_getitem mats (ny (self w) - 1 - iy) ix = Ok v ∧
            (v - 1 < - k ∨ k ≤ v - 1)) in
  ∃ r w', generate_physical_groups w = (r, w') ∧
    (r = Ok tt ∨ r = Raise IndexError) ∧
    (r = Raise IndexError ↔ bad) ∧
    (r = Raise IndexError → phys_groups (gmsh w') = phys_groups (gmsh w)).
Proof.
  destruct w as [s k0 h f], sf as [[sn sm] ds].
  intros Hm Hs Hsh k bad. cbn [self gmsh shape] in *. injection Hsh as -> ->.
  pose proof (generate_physical_groups_run s k0 h f mats (nx s) (ny s) ds Hm Hs
                ltac:(lia) ltac:(lia)) as Hrun.
  cbn zeta in Hrun.
  set (gs0 := (λ nm, mk_group nm []) <$> effective_names s mats) in *.
  assert (Z.of_nat (length gs0) = k) as Hk by (unfold gs0; by rewrite length_fmap).
  assert (assign mats (ny s) ds (row_major (nx s) (ny s)) gs0 = None ↔ bad) as Hbad.
  { rewrite assign_None, Exists_exists. unfold bad. split.
    - intros ([ix iy] & Hin & Hc). apply elem_of_row_major in Hin.
      apply cell_group_None in Hc. rewrite Hk in Hc. eauto.
    - intros (ix & iy & Hin & Hc). exists (ix, iy).
      split; [by apply elem_of_row_major|]. apply cell_group_None. by rewrite Hk. }
  destruct (assign mats (ny s) ds (row_major (nx s) (ny s)) gs0) as [gs|].
  - eexists _, _. split; [exact Hrun|]. split; [by left|]. split; [|done].
    split; [done|]. intros Hb. apply Hbad in Hb. done.
  - destruct Hrun as [gs Hrun]. eexists _, _. split; [exact Hrun|].
    split; [by right|]. split; [|done]. split; [|done]. intros _. by apply Hbad.
Qed.

Lemma physical_groups_index_error_witness :
  (generate_physical_groups demo_short_built).1 = Raise IndexError.
Proof.
  assert (∀ w mats sf,
            _materials (self w) = Some mats → surfaces (self w) = Some sf →
            shape sf = (nx (self w), ny (self w)) →
            0 < nx (self w) → 0 < ny (self w) →
            matrix_getitem mats (ny (self w) - 1 - 0) 0 = Raise IndexError →
            (generate_physical_groups w).1 = Raise IndexError) as Hgen.
  { intros w mats sf Hm Hs Hsh Hx Hy Hbad.
    destruct (physical_groups_index_error w mats sf Hm Hs Hsh)
      as (r & w' & -> & _ & Hiff & _).
    apply Hiff. exists 0, 0. split; [lia|]. by left. }
  apply (Hgen demo_short_built [[1; 2]] (or_empty (surfaces (self demo_short_built))));
    vm_compute; reflexivity.
Defined.

(** X15: an id [v <= 0] in the matrix is not rejected: as a Python list
    index, [v - 1] counts from the end, so when the call succeeds the cell's
    surface lies in group [v - 1 + k] ([k] groups); an id [0] puts the cell
    in the last group. *)
Theorem nonpositive_id_wraps w w' sf mats ix iy v :
  _materials (self w) = Some mats → surfaces (self w) = Some sf →
  shape sf = (nx (self w), ny (self w)) →
  0 ≤ ix < nx (self w) → 0 ≤ iy < ny (self w) →
  matrix_getitem mats (ny (self w) - 1 - iy) ix = Ok v → v ≤ 0 →
  generate_physical_groups w = (Ok tt, w') →
  ∃ gs grp t,
    physical_groups (self w') = Some gs ∧
    - Z.of_nat (length gs) ≤ v - 1 ∧
    gs !! Z.to_nat (v - 1 + Z.of_nat (length gs)) = Some grp ∧
    np_getitem sf ix iy = Ok t ∧ t ∈ entities grp.
Proof.
  destruct w as [s k0 h f], sf as [[sn sm] ds]. cbn [self gmsh shape].
  intros Hm Hs [= -> ->] Hx Hy Hv Hneg Hrun.
  pose proof (generate_physical_groups_run s k0 h f mats (nx s) (ny s) ds Hm Hs
                ltac:(lia) ltac:(lia)) as Hrun'.
  cbn zeta in Hrun'.
  set (gs0 := (λ nm, mk_group nm []) <$> effective_names s mats) in *.
  destruct (assign mats (ny s) ds (row_major (nx s) (ny s)) gs0) as [gs|] eqn:Hgs.
  2:{ destruct Hrun' as [gs Hrun']. congruence. }
  rewrite Hrun' in Hrun. injection Hrun as <-.
  pose proof (assign_length _ _ _ _ _ _ Hgs) as Hlen.
  pose proof (assign_cells _ _ _ _ _ _ Hgs) as Hcells.
  assert ((ix, iy) ∈ row_major (nx s) (ny s)) as Hin by (by apply elem_of_row_major).
  eapply Forall_forall in Hcells as (g & Hg & Hlt); [|exact Hin].
  assert (- Z.of_nat (length gs0) ≤ v - 1 ∧ g = Z.to_nat (v - 1 + Z.of_nat (length gs0)))
    as [Hlow ->].
  { unfold cell_group in Hg. cbn [fst snd] in Hg. rewrite Hv in Hg.
    unfold norm_index in Hg.
    destruct (Z.leb_spec 0 (v - 1)), (Z.ltb_spec (v - 1) (Z.of_nat (length gs0))),
      (Z.leb_spec (- Z.of_nat (length gs0)) (v - 1)), (Z.ltb_spec (v - 1) 0);
      cbn in Hg; simplify_eq; try lia; done. }
  pose proof (assign_entities _ _ _ _ _ _ (Z.to_nat (v - 1 + Z.of_nat (length gs0))) Hgs)
    as He.
  destruct (gs0 !! Z.to_nat (v - 1 + Z.of_nat (length gs0))) as [grp0|] eqn:E0;
    [|apply lookup_ge_None in E0; lia].
  destruct (gs !! Z.to_nat (v - 1 + Z.of_nat (length gs0))) as [grp|] eqn:E; [|done].
  cbn in He. injection He as He.
  exists gs, grp, (getd ds (ix, iy)). rewrite Hlen.
  split; [done|]. split; [done|]. split; [done|].
  rewrite np_getitem_in by done. split; [done|].
  rewrite He. apply elem_of_app. right. apply list_elem_of_fmap_2.
  apply list_elem_of_filter. split; [exact Hg|exact Hin].
Qed.

Lemma nonpositive_id_wraps_witness :
  ∃ gs grp, physical_groups (self (generate_physical_groups demo_zero_built).2) = Some gs ∧
    gs !! 1%nat = Some grp ∧ 1 ∈ entities grp.
Proof.
  assert (∀ w sf mats,
            _materials (self w) = Some mats → surfaces (self w) = Some sf →
            shape sf = (nx (self w), ny (self w)) →
            0 < nx (self w) → 0 < ny (self w) →
            matrix_getitem mats (ny (self w) - 1 - 0) 0 = Ok 0 →
            (generate_physical_groups w).1 = Ok tt →
            ∃ gs grp t, physical_groups (self (generate_physical_groups w).2) = Some gs ∧
              gs !! Z.to_nat (0 - 1 + Z.of_nat (length gs)) = Some grp ∧
              np_getitem sf 0 0 = Ok t ∧ t ∈ entities grp) as Hgen.
  { intros w sf mats Hm Hs Hsh Hx Hy Hv Hok.
    destruct (generate_physical_groups w) as [r w'] eqn:Hrun. cbn in Hok. subst r.
    destruct (nonpositive_id_wraps w w' sf mats 0 0 0 Hm Hs Hsh ltac:(lia) ltac:(lia)
                Hv ltac:(lia) Hrun) as (gs & grp & t & ? & _ & ? & ? & ?).
    exists gs, grp, t. done. }
  destruct (Hgen demo_zero_built (or_empty (surfaces (self demo_zero_built)))
              [[1; 2]; [0; 1]]) as (gs & grp & t & Hgs & Hl & Ht & Hin);
    [vm_compute; reflexivity ..|].
  assert (length gs = 2%nat) as Hlen.
  { assert (length <$> physical_groups (self (generate_physical_groups demo_zero_built).2)
            = Some 2%nat) as E by (vm_compute; reflexivity).
    rewrite Hgs in E. by injection E. }
  rewrite Hlen in Hl. vm_compute in Ht. injection Ht as <-.
  exists gs, grp. split; [exact Hgs|]. split; [exact Hl|exact Hin].
Defined.

(** ** From the matrix to the exported table *)

Global Instance key_le_trans : Transitive key_le.
Proof. intros p q r. unfold key_le. lia. Qed.

Lemma sorted_by_key_unique l e :
  Sorted key_le e → NoDup e.*1 → e ≡ₚ l → sorted_by_key l = e.
Proof.
  intros Hs Hnd Hp. apply (Sorted_unique_strong key_le).
  - intros p q Hp1 Hq Hle Hge.
    assert (p ∈ e) as Hpe by (by rewrite Hp, <- sorted_by_key_Permutation).
    assert (p.1 = q.1) as Hk by (unfold key_le in *; lia).
    apply list_elem_of_lookup in Hpe as (i & Hi), Hq as (j & Hj).
    assert (i = j) as ->.
    { eapply NoDup_lookup; [exact Hnd|..]; rewrite list_lookup_fmap.
      - by rewrite Hi.
      - rewrite Hj. cbn. by rewrite Hk. }
    congruence.
  - apply sorted_by_key_Sorted.
  - exact Hs.
  - by rewrite sorted_by_key_Permutation, Hp.
Qed.

Lemma flatten_groups_cells mats m ds cs gs0 gs :
  assign mats m ds cs gs0 = Some gs →
  Forall (λ g, entities g = []) gs0 → NoDup (getd ds <$> cs) →
  cell_pair mats m ds (length gs0) <$> cs ≡ₚ flatten_groups gs.
Proof.
  intros Hgs Hempty Hnd.
  assert (concat (entities <$> gs0) = []) as Hnil.
  { clear -Hempty. induction Hempty as [|g l Hg _ IH]; [done|]. cbn. by rewrite Hg. }
  pose proof (assign_concat _ _ _ _ _ _ Hgs) as Hperm. rewrite Hnil in Hperm.
  cbn in Hperm.
  assert ((cell_pair mats m ds (length gs0) <$> cs).*1 = getd ds <$> cs) as Hfst.
  { rewrite <- list_fmap_compose. done. }
  apply NoDup_Permutation.
  - apply (NoDup_fmap_1 fst). by rewrite Hfst.
  - apply (NoDup_fmap_1 fst). by rewrite flatten_groups_fst, Hperm.
  - intros [t g]. rewrite elem_of_flatten_groups, list_elem_of_fmap.
    pose proof (assign_cells _ _ _ _ _ _ Hgs) as Hcells.
    split.
    + intros (c & E & Hc). eapply Forall_forall in Hcells as (g' & Hg' & Hlt); [|exact Hc].
      unfold cell_pair in E. rewrite Hg' in E. injection E as -> ->.
      split; [lia|]. rewrite Nat2Z.id.
      pose proof (assign_entities _ _ _ _ _ _ g' Hgs) as He.
      destruct (gs0 !! g') as [grp0|] eqn:E0; [|apply lookup_ge_None in E0; lia].
      destruct (gs !! g') as [grp|]; [|done]. cbn in He. injection He as He.
      exists grp. split; [done|]. rewrite He. apply elem_of_app. right.
      apply list_elem_of_fmap_2. by apply list_elem_of_filter.
    + intros (Hg & grp & Hl & Ht).
      pose proof (assign_entities _ _ _ _ _ _ (Z.to_nat g) Hgs) as He.
      rewrite Hl in He. destruct (gs0 !! Z.to_nat g) as [grp0|] eqn:E0; [|done].
      cbn in He. injection He as He.
      rewrite (Forall_lookup_1 _ _ _ _ Hempty E0) in He. cbn in He.
      rewrite He in Ht. apply list_elem_of_fmap in Ht as (c & -> & Hc).
      apply list_elem_of_filter in Hc as [Hcg Hc].
      exists c. split; [|done]. unfold cell_pair. rewrite Hcg. f_equal. lia.
Qed.

Lemma Sorted_key_tags (e : list (Z * Z)) base :
  e.*1 = seqZ base (Z.of_nat (length e)) → Sorted key_le e ∧ NoDup e.*1.
Proof.
  intros He. split; [|rewrite He; apply NoDup_seqZ].
  revert base He. induction e as [|p e IH]; intros base He; [constructor|].
  cbn [length] in He. rewrite Nat2Z.inj_succ, seqZ_cons in He by lia.
  rewrite Z.pred_succ in He. injection He as Hp He.
  constructor; [by eapply IH|].
  destruct e as [|q e]; [constructor|]. constructor.
  cbn [length] in He. rewrite Nat2Z.inj_succ, seqZ_cons in He by lia.
  injection He as Hq _. unfold key_le. lia.
Qed.

Lemma fill_tags cs base :
  NoDup cs → getd (fill cs base ∅) <$> cs = seqZ (base + 1) (Z.of_nat (length cs)).
Proof.
  intros Hnd. apply list_eq. intros i. rewrite list_lookup_fmap.
  destruct (cs !! i) as [c|] eqn:Hi; cbn.
  - unfold getd. rewrite (fill_lookup _ _ _ i c Hnd Hi). cbn.
    rewrite lookup_seqZ_lt; [done|]. apply lookup_lt_Some in Hi. lia.
  - rewrite lookup_seqZ_ge; [done|]. apply lookup_ge_None in Hi. lia.
Qed.

(** X16: on a grid with a matrix of shape [(ny, nx)] whose ids lie in
    [1..k] ([k] names in force), [generate] followed by
    [export_assembly_materials] succeeds and writes one file of [nx*ny]
    lines: line [iy*nx + ix] (counting from 0) is that of cell [(ix, iy)],
    with the surface tag [S0 + 1 + iy*nx + ix] ([S0] the kernel's surface
    counter before the call) and the id [M[ny-1-iy, ix]]. *)
Theorem generate_and_export_table w sz path mats :
  constructed (self w) → 0 ≤ nx (self w) → 0 ≤ ny (self w) →
  _materials (self w) = Some mats →
  let n := nx (self w) in
  let m := ny (self w) in
  let k := Z.of_nat (length (effective_names (self w) mats)) in
  length mats = Z.to_nat m → Forall (λ row, length row = Z.to_nat n) mats →
  Forall (Forall (λ v, 1 ≤ v ≤ k)) mats →
  ∃ w' pairs,
    (generate sz ;;; export_assembly_materials path) w = (Ok tt, w') ∧
    files w' = files w ++ [(path, String.concat "" (format_line <$> pairs))] ∧
    Z.of_nat (length pairs) = n * m ∧
    ∀ ix iy, 0 ≤ ix < n → 0 ≤ iy < m →
      ∃ v, matrix_getitem mats (m - 1 - iy) ix = Ok v ∧
        pairs !! Z.to_nat (iy * n + ix)
        = Some (max_surface (gmsh w) + 1 + (iy * n + ix), v - 1).
Proof.
  destruct w as [s k0 h f].
  intros Hc Hnx Hny Hm n m k Hlen Hrows Hvals. cbn [self gmsh files] in *.
  set (cs := row_major n m).
  set (ds := fill cs (max_surface k0) ∅).
  set (s1 := built_mesh (set_mesh_size sz s) k0).
  set (gs0 := (λ nm, mk_group nm []) <$> effective_names s mats).
  assert (∀ c, c ∈ cs →
            ∃ v, matrix_getitem mats (m - 1 - c.2) c.1 = Ok v ∧ 1 ≤ v ≤ k ∧
                 cell_group mats m (length gs0) c = Some (Z.to_nat (v - 1))) as Hcell.
  { intros [ix iy] [? ?]%elem_of_row_major.
    destruct (matrix_getitem_in mats n m (m - 1 - iy) ix k) as (v & Ev & Hv);
      try done; try lia.
    exists v. split; [done|]. split; [done|].
    unfold cell_group. cbn [fst snd]. rewrite Ev. unfold gs0.
    rewrite length_fmap, norm_index_in by (fold k; lia). done. }
  destruct (assign_total mats m ds cs gs0) as [gs Hgs].
  { apply Forall_forall. intros c Hin. destruct (Hcell c Hin) as (v & _ & _ & ->). eauto. }
  pose proof (generate_physical_groups_run s1 (built_kernel (set_mesh_size sz s) sz k0)
                h f mats n m ds Hm eq_refl ltac:(cbn; lia) ltac:(cbn; lia)) as Hrun.
  cbn zeta in Hrun.
  change (effective_names s1 mats) with (effective_names s mats) in Hrun.
  change (ny s1) with m in Hrun. change (nx s1) with n in Hrun.
  fold gs0 cs in Hrun. rewrite Hgs in Hrun.
  set (e := cell_pair mats m ds (length gs0) <$> cs).
  assert (e.*1 = seqZ (max_surface k0 + 1) (Z.of_nat (length e))) as Hfst.
  { unfold e. rewrite <- list_fmap_compose, length_fmap.
    apply (fill_tags cs (max_surface k0)), NoDup_row_major. }
  destruct (Sorted_key_tags e _ Hfst) as [Hsorted Hnd].
  assert (sorted_by_key (flatten_groups gs) = e) as Hsort.
  { apply sorted_by_key_unique; [done|done|].
    apply flatten_groups_cells; [done| |].
    - unfold gs0. apply Forall_fmap, Forall_forall. done.
    - unfold e in Hnd. by rewrite <- list_fmap_compose in Hnd. }
  eexists _, e. split; [|split; [|split]].
  - erewrite bind_ok; cycle 1.
    { rewrite generate_unfold. cbn [modify_self snd self gmsh heap files].
      erewrite bind_ok by (by apply (build_run (set_mesh_size sz s) k0 h f sz)).
      exact Hrun. }
    cbn beta. unfold export_assembly_materials, bind, attr, write_file.
    cbn [self physical_groups set_physical_groups]. rewrite Hsort. reflexivity.
  - done.
  - unfold e, cs. rewrite length_fmap. by apply length_row_major_Z.
  - intros ix iy Hx Hy.
    assert ((ix, iy) ∈ cs) as Hin by (by apply elem_of_row_major).
    destruct (Hcell _ Hin) as (v & Ev & Hv & Hg). exists v. split; [done|].
    unfold e. rewrite list_lookup_fmap. unfold cs.
    rewrite lookup_row_major by done. cbn. unfold cell_pair. rewrite Hg.
    f_equal. f_equal; [|lia].
    unfold getd, ds. fold cs.
    rewrite (fill_lookup cs _ _ (Z.to_nat (iy * n + ix)) (ix, iy));
      [cbn; nia | apply NoDup_row_major | by apply lookup_row_major].
Qed.

Lemma generate_and_export_table_witness :
  ∃ pairs, ((generate 1%Q ;;; export_assembly_materials None) demo).1 = Ok tt ∧
    pairs !! 2%nat = Some (3, 0) ∧ length pairs = 4%nat.
Proof.
  assert (∀ w mats,
            constructed (self w) → nx (self w) = 2 → ny (self w) = 2 →
            _materials (self w) = Some mats →
            max_surface (gmsh w) = 0 →
            length mats = 2%nat → Forall (λ row, length row = 2%nat) mats →
            Forall (Forall (λ v, 1 ≤ v ≤ Z.of_nat (length (effective_names (self w) mats)))) mats →
            matrix_getitem mats 0 0 = Ok 1 →
            ∃ pairs, ((generate 1%Q ;;; export_assembly_materials None) w).1 = Ok tt ∧
              pairs !! 2%nat = Some (3, 0) ∧ length pairs = 4%nat) as Hgen.
  { intros w mats Hc Hx Hy Hm Hs Hl Hr Hv H00.
    destruct (generate_and_export_table w 1%Q None mats Hc) as (w' & pairs & Hrun & _ & Hlen & Hp);
      try done; try (rewrite ?Hx, ?Hy; done).
    exists pairs. rewrite Hrun. split; [done|].
    rewrite Hx, Hy in Hlen. split; [|lia].
    destruct (Hp 0 1) as (v & Ev & Hl2); [lia..|].
    rewrite ?Hx, ?Hy, ?Hs in Hl2. rewrite ?Hx, ?Hy in Ev.
    change (2 - 1 - 1) with 0 in Ev. rewrite H00 in Ev.
    injection Ev as <-. exact Hl2. }
  apply (Hgen demo [[1; 2]; [2; 1]]); try reflexivity.
  - split; reflexivity.
  - repeat constructor.
  - repeat constructor; cbn; lia.
Defined.
